(** * The butterfly mock-up of fmmtl, [experimental/butterfly.cpp]

    A shallow embedding of the experimental butterfly driver: the Fourier
    kernel, the level sweep over a source tree and a target tree with its
    operator selection, and the error analysis against the direct product.

    - [Butterfly] renders the scheduling part of [main]: the box bindings,
      their sizing, the assertion on the split level and the level sweep;
    - [Kernel] renders [FourierKernel] over IEEE binary64 numbers, the
      [double] of the source, with the two functions of boost it calls
      taken as they come;
    - [ErrorAnalysis] renders the accumulation of the three error figures
      over binary64 numbers, and [ErrorSpec] writes the three figures out
      as the specification has them;
    - [FloatOrder] holds what is needed to reason on the comparison of
      binary64 numbers;
    - [Driver] puts [main] together;
    - [CommandLine] renders the reading of the command line at the head of
      [main], and [Passes] what is read off the record of the sweep.

    The modules [ButterflyFacts], [FloatOrderFacts], [ErrorAnalysisFacts]
    and [FiguresFacts] hold the theorems on the specification; the modules
    [PassesFacts], [DriverFacts], [ErrorAnalysisMore], [KernelFacts] and
    [CommandLineFacts] hold further properties of the code. *)

From Stdlib Require Import ZArith List Bool Lia Floats.
From stdpp Require Import gmap list strings.
Import ListNotations.

(** [fmmtl::complex<T>]: a pair of a real and an imaginary part. *)
Record complex (T : Type) : Type := Complex { re : T; im : T }.
Arguments Complex {T} re im.
Arguments re {T} c.
Arguments im {T} c.

(** * The scheduler *)

Module Butterfly.
Local Open Scope Z_scope.

(** ** Trees *)

(** A box of a tree, as far as [main] looks at it: its identity (the key of
    a box binding) and its leaf flag. *)
Record box : Type := Box { index : nat; is_leaf : bool }.

(** Modelled from the spec: fmmtl/tree/NDTree.hpp is not part of the
    sources.  A tree exposes [levels()], the ordered sequence of boxes of a
    level and, per box, [is_leaf()]; it is rendered as the list of its
    levels, root level first, each level the list of its boxes. *)
Definition NDTree : Type := list (list box).

Definition levels (t : NDTree) : Z := Z.of_nat (length t).

(** The range [boxes(L, tree)]. *)
Definition boxes (L : Z) (t : NDTree) : list box :=
  if L <? 0 then [] else nth (Z.to_nat L) t [].

(** The member [tree.boxes(L)]: the number of boxes of level [L]. *)
Definition tree_boxes (t : NDTree) (L : Z) : nat := length (boxes L t).

(** Every box of a tree has an identity of its own. *)
Definition distinct_boxes (t : NDTree) : Prop := NoDup (map index (concat t)).

(** ** Machine integers *)

(** Conversion to a 32-bit [int], wrap-around written out. *)
Definition to_int (z : Z) : Z := (z + 2 ^ 31) mod 2 ^ 32 - 2 ^ 31.

(** [int max_L = std::min(source_tree.levels(), target_tree.levels()) - 1] *)
Definition max_L (source_tree target_tree : NDTree) : Z :=
  to_int (Z.min (levels source_tree) (levels target_tree) - 1).

(** [int L_split = max_L / 2]: the division of C++ truncates. *)
Definition L_split (max_L : Z) : Z := Z.quot max_L 2.

(** ** State *)

Definition charge_type : Type := complex float.
Definition result_type : Type := complex float.

(** [std::vector<vector<charge_type>>]; a default-constructed ublas vector
    is empty. *)
Definition multipole_type : Type := list (list charge_type).
Definition local_type : Type := list (list result_type).

Inductive op : Type := S2M | M2M | S2L | M2L | M2T | L2L | L2T.

Definition op_eqb (a b : op) : bool :=
  match a, b with
  | S2M, S2M | M2M, M2M | S2L, S2L | M2L, M2L
  | M2T, M2T | L2L, L2L | L2T, L2T => true
  | _, _ => false
  end.

Definition source_side (o : op) : bool :=
  match o with S2M | M2M | S2L => true | _ => false end.

Definition target_side (o : op) : bool :=
  match o with M2T | L2L | L2T => true | _ => false end.

(** One pass through the body of the innermost loop: the level, the two
    running indices, the two boxes, and the operator branches entered, in
    the order they were entered. *)
Record visit : Type := Visit {
  v_L : Z;
  v_s_idx : Z;
  v_t_idx : Z;
  v_sbox : box;
  v_tbox : box;
  v_ops : list op
}.

(** What [main] holds while it schedules: the result vector, the two box
    bindings (a default-constructed slot per box: a box never written reads
    as the empty vector), and the record of the passes made so far. *)
Record state : Type := State {
  result : list result_type;
  multipole : gmap nat multipole_type;
  local : gmap nat local_type;
  visits : list visit
}.

Definition czero : complex float := Complex 0%float 0%float.

(** [std::vector<result_type> result(M)] and the two fresh bindings. *)
Definition initial (M : nat) : state :=
  {| result := repeat czero M; multipole := ∅; local := ∅; visits := [] |}.

(** ** Sizing the bindings *)

(** [multipole[sbox].resize(n)] *)
Definition resize_multipole (n : nat) (st : state) (sbox : box) : state :=
  {| result := result st;
     multipole := <[index sbox := resize n [] (multipole st !!! index sbox)]> (multipole st);
     local := local st;
     visits := visits st |}.

(** [local[tbox].resize(n)] *)
Definition resize_local (n : nat) (st : state) (tbox : box) : state :=
  {| result := result st;
     multipole := multipole st;
     local := <[index tbox := resize n [] (local st !!! index tbox)]> (local st);
     visits := visits st |}.

(** The body of the sizing loop at level [L]. *)
Definition initialize_level (max_L : Z) (source_tree target_tree : NDTree)
    (st : state) (L : Z) : state :=
  let st := fold_left (resize_multipole (tree_boxes target_tree L))
                      (boxes (max_L - L) source_tree) st in
  fold_left (resize_local (tree_boxes source_tree (max_L - L)))
            (boxes L target_tree) st.

(** [for (int L = 0; L <= max_L; ++L)] *)
Definition initialize (max_L : Z) (source_tree target_tree : NDTree)
    (st : state) : state :=
  fold_left (initialize_level max_L source_tree target_tree)
            (seqZ 0 (max_L + 1)) st.

(** ** The level sweep *)

(** The seven operator branches.  In the source each of them holds a comment
    and no statement, so entering one leaves the state as it is. *)
Definition run (o : op) (st : state) : state :=
  match o with
  | S2M => st
  | M2M => st
  | S2L => st
  | M2L => st
  | M2T => st
  | L2L => st
  | L2T => st
  end.

(** Entering a branch: its body runs and the branch is noted. *)
Definition enter (o : op) (c : state * list op) : state * list op :=
  (run o (fst c), snd c ++ [o]).

(** The three conditionals of the innermost body. *)
Definition select (max_L L_split L : Z) (sbox tbox : box)
    (st : state) : state * list op :=
  let c := (st, []) in
  let c :=
    if (L =? 0) || is_leaf sbox then enter S2M c
    else if L <? L_split then enter M2M c
    else enter S2L c in
  let c :=
    if L =? L_split then enter M2L c else c in
  let c :=
    if (L =? max_L) || is_leaf tbox then enter L2T c
    else if L >? L_split then enter L2L c
    else enter M2T c in
  c.

Definition note (v : visit) (st : state) : state :=
  {| result := result st; multipole := multipole st; local := local st;
     visits := visits st ++ [v] |}.

(** One turn of the loop over the target boxes; the accumulator carries
    [t_idx]. *)
Definition target_step (max_L L_split L s_idx : Z) (sbox : box)
    (acc : Z * state) (tbox : box) : Z * state :=
  let t_idx := fst acc + 1 in
  let '(st, ops) := select max_L L_split L sbox tbox (snd acc) in
  (t_idx, note (Visit L s_idx t_idx sbox tbox ops) st).

(** One turn of the loop over the source boxes; the accumulator carries
    [s_idx]. *)
Definition source_step (max_L L_split L : Z) (target_tree : NDTree)
    (acc : Z * state) (sbox : box) : Z * state :=
  let s_idx := fst acc + 1 in
  let t_idx := -1 in
  (s_idx,
   snd (fold_left (target_step max_L L_split L s_idx sbox)
                  (boxes L target_tree) (t_idx, snd acc))).

Definition level_step (max_L L_split : Z) (source_tree target_tree : NDTree)
    (st : state) (L : Z) : state :=
  let s_idx := -1 in
  snd (fold_left (source_step max_L L_split L target_tree)
                 (boxes (max_L - L) source_tree) (s_idx, st)).

(** [for (int L = 0; L < L_split; ++L)] *)
Definition sweep (max_L L_split : Z) (source_tree target_tree : NDTree)
    (st : state) : state :=
  fold_left (level_step max_L L_split source_tree target_tree)
            (seqZ 0 L_split) st.

(** ** The scheduling part of [main] *)

(** How the scheduling part ends: [assert(L_split > 0)] fails and the
    program aborts in the state reached so far, or the sweep runs to its
    end. *)
Inductive outcome : Type :=
  | Aborted (st : state)
  | Swept (st : state).

Definition final (o : outcome) : state :=
  match o with Aborted st => st | Swept st => st end.

(** The state in which the assertion is evaluated. *)
Definition sized (source_tree target_tree : NDTree) (M : nat) : state :=
  initialize (max_L source_tree target_tree) source_tree target_tree (initial M).

Definition butterfly (source_tree target_tree : NDTree) (M : nat) : outcome :=
  let mL := max_L source_tree target_tree in
  let st := sized source_tree target_tree M in
  let Ls := L_split mL in
  if Ls >? 0 then Swept (sweep mL Ls source_tree target_tree st)
  else Aborted st.

(** The levels, source boxes and target boxes passed through, in order. *)
Definition triple (v : visit) : Z * box * box := (v_L v, v_sbox v, v_tbox v).

Definition at_level (L : Z) (vs : list visit) : list visit :=
  List.filter (fun v => v_L v =? L) vs.

(** ** Reading the record of passes *)

(** The branches entered on one pass; they do not depend on the state. *)
Definition entered (max_L L_split L : Z) (sbox tbox : box) : list op :=
  snd (select max_L L_split L sbox tbox (initial 0)).

(** The source-side and target-side rules as the specification words them:
    the first rule that matches wins. *)
Definition source_rule (L_split L : Z) (sbox : box) : op :=
  if (L =? 0) || is_leaf sbox then S2M
  else if L <? L_split then M2M
  else S2L.

Definition target_rule (max_L L_split L : Z) (tbox : box) : op :=
  if (L =? max_L) || is_leaf tbox then L2T
  else if L >? L_split then L2L
  else M2T.

(** Every source box paired with every target box, source box by source
    box, at level [L]. *)
Definition cross (L : Z) (sboxes tboxes : list box) : list (Z * box * box) :=
  map (fun p => (L, fst p, snd p)) (list_prod sboxes tboxes).

(** [st'] is [st] with the passes [vs] made and nothing else changed. *)
Definition extends (st st' : state) (vs : list visit) : Prop :=
  result st' = result st /\
  multipole st' = multipole st /\
  local st' = local st /\
  visits st' = visits st ++ vs.

(** A pass entered the branches the three conditionals select. *)
Definition obeys (max_L L_split : Z) (v : visit) : Prop :=
  v_ops v = entered max_L L_split (v_L v) (v_sbox v) (v_tbox v).

(** C1 as the claim words it: at every level index from 0 through [max_L]
    the passes made are the full cross product of that level. *)
Definition sweeps_all_levels (source_tree target_tree : NDTree) (M : nat) : Prop :=
  let mL := max_L source_tree target_tree in
  forall L, 0 <= L <= mL ->
    map triple (at_level L (visits (final (butterfly source_tree target_tree M)))) =
    cross L (boxes (mL - L) source_tree) (boxes L target_tree).

(** ** Two small trees *)

(** A binary tree of three levels: 1, 2 and 4 boxes, the last level leaves. *)
Definition tree3 : NDTree :=
  [ [Box 0 false];
    [Box 1 false; Box 2 false];
    [Box 3 true; Box 4 true; Box 5 true; Box 6 true] ].

(** A tree of two levels. *)
Definition tree2 : NDTree :=
  [ [Box 0 false]; [Box 1 true; Box 2 true] ].

End Butterfly.

(** * The kernel *)

Module Kernel.
Local Open Scope float_scope.

(** [typedef double value_type] *)
Definition value_type : Type := float.

(** [Vec<1,value_type>]: one coordinate. *)
Record Vec1 : Type := MkVec1 { coord : value_type }.

Definition source_type : Type := Vec1.
Definition target_type : Type := Vec1.
Definition kernel_value_type : Type := complex value_type.

(** Modelled from the spec: fmmtl/numeric/Vec.hpp is not part of the
    sources.  The inner product of two points of dimension one is the
    product of their coordinates. *)
Definition inner_prod (t s : Vec1) : value_type := coord t * coord s.

(** [boost::math::constants::pi<value_type>()]: the binary64 number nearest
    to pi. *)
Definition pi : value_type := 0x1.921fb54442d18p+1.

Section Boost.

(** [boost::math::cos_pi] and [boost::math::sin_pi] belong to boost, which
    is not part of the sources: they are taken as they come. *)
Variables cos_pi sin_pi : value_type -> value_type.

(** [FourierKernel::operator()] *)
Definition value (t : target_type) (s : source_type) : kernel_value_type :=
  let r := 2 * inner_prod t s in
  Complex (cos_pi r) (sin_pi r).

End Boost.

(** [FourierKernel::phase] *)
Definition phase (t : target_type) (s : source_type) : value_type :=
  2 * pi * inner_prod t s.

(** [FourierKernel::ampl] *)
Definition ampl (t : target_type) (s : source_type) : value_type := 1.

End Kernel.

(** * The error analysis *)

Module ErrorAnalysis.
Local Open Scope float_scope.

Definition result_type : Type := complex float.

(** [exact[k] - result[k]] on complex numbers. *)
Definition csub (a b : complex float) : complex float :=
  Complex (re a - re b) (im a - im b).

(** [std::max(a, b)]: [b] when [a < b], else [a]. *)
Definition std_max (a b : float) : float := if a <? b then b else a.

(** [result.size()] as a [double]. *)
Definition of_size (n : nat) : float := of_uint63 (Uint63.of_Z (Z.of_nat n)).

(** The four running sums of the loop. *)
Record totals : Type := Totals {
  tot_error_sq : float;
  tot_norm_sq : float;
  tot_ind_rel_err : float;
  max_ind_rel_err : float
}.

(** The three figures printed. *)
Record report : Type := Report {
  tot_rel_err : float;
  ave_rel_err : float;
  max_rel_err : float
}.

Definition zero_totals : totals := Totals 0 0 0 0.

Section Norms.

(** [norm_2] and [norm_2_sq] come from fmmtl/numeric/norm.hpp, which is not
    part of the sources: they are taken as they come. *)
Variables norm_2 norm_2_sq : complex float -> float.

(** [norm_2(exact[k] - result[k]) / norm_2(exact[k])] *)
Definition rel_error (result_k exact_k : result_type) : float :=
  norm_2 (csub exact_k result_k) / norm_2 exact_k.

(** The body of the loop for one target. *)
Definition accumulate_one (a : totals) (result_k exact_k : result_type) : totals :=
  let rel_error := rel_error result_k exact_k in
  let tot_ind := tot_ind_rel_err a + rel_error in
  let max_ind := std_max (max_ind_rel_err a) rel_error in
  let err_sq := tot_error_sq a + norm_2_sq (csub exact_k result_k) in
  let norm_sq := tot_norm_sq a + norm_2_sq exact_k in
  Totals err_sq norm_sq tot_ind max_ind.

Definition accumulate (result exact : list result_type) (a : totals) (k : nat) : totals :=
  accumulate_one a (nth k result Butterfly.czero) (nth k exact Butterfly.czero).

(** [for (unsigned k = 0; k < result.size(); ++k)] *)
Definition sum_errors (result exact : list result_type) : totals :=
  fold_left (accumulate result exact) (seq 0 (length result)) zero_totals.

(** The three figures, from the running sums. *)
Definition analyse (result exact : list result_type) : report :=
  let a := sum_errors result exact in
  {| tot_rel_err := sqrt (tot_error_sq a / tot_norm_sq a);
     ave_rel_err := tot_ind_rel_err a / of_size (length result);
     max_rel_err := max_ind_rel_err a |}.

(** ** Sums and ratios *)

(** A sum over the targets, taken in the order of the targets. *)
Definition fsum (xs : list float) : float := fold_left PrimFloat.add xs 0.

(** The per-target ratios, target by target. *)
Definition ratios (result exact : list result_type) : list float :=
  zip_with rel_error result exact.

End Norms.

(** [m] is the maximum of [xs]: it is one of them, up to the equality of
    the numbers, and none of them exceeds it. *)
Definition is_maximum (m : float) (xs : list float) : Prop :=
  (exists x, In x xs /\ (m =? x) = true) /\
  (forall x, In x xs -> (x <=? m) = true).

(** C7 as the claim words it, for one run: a target whose [exact_k] has
    zero norm has relative error 0 when [result_k] has zero norm too, and
    neither the sum of the average nor the running maximum holds a NaN or
    an infinity on its account. *)
Definition zero_norm_guarded (norm_2 norm_2_sq : complex float -> float)
    (result exact : list result_type) : Prop :=
  forall k, (k < length result)%nat ->
    is_zero (norm_2 (nth k exact Butterfly.czero)) = true ->
    (is_zero (norm_2 (nth k result Butterfly.czero)) = true ->
     is_zero (rel_error norm_2 (nth k result Butterfly.czero)
                                (nth k exact Butterfly.czero)) = true) /\
    is_finite (tot_ind_rel_err (sum_errors norm_2 norm_2_sq result exact)) = true /\
    is_finite (max_ind_rel_err (sum_errors norm_2 norm_2_sq result exact)) = true.

(** Modelled from the spec: fmmtl/numeric/norm.hpp is not part of the
    sources.  The norm of a complex number is its modulus, and the squared
    norm the sum of the squares of its two parts. *)
Definition modulus_sq (z : complex float) : float := re z * re z + im z * im z.
Definition modulus (z : complex float) : float := sqrt (modulus_sq z).

End ErrorAnalysis.

(** * The three figures as the specification has them *)

Module ErrorSpec.
Import ErrorAnalysis.
Local Open Scope float_scope.

(** [exact_k - result_k], part by part. *)
Definition difference (result_k exact_k : complex float) : complex float :=
  Complex (re exact_k - re result_k) (im exact_k - im result_k).

(** The number [M] of targets as a binary64 number: the integer [M],
    rounded to the nearest binary64 number. *)
Definition count (M : nat) : float :=
  SF2Prim (binary_normalize prec emax (Z.of_nat M) 0 false).

Section Norms.
Variables norm_2 norm_2_sq : complex float -> float.

(** The per-target ratio: the norm of [exact_k - result_k] over the norm of
    [exact_k]. *)
Definition spec_ratio (result_k exact_k : complex float) : float :=
  norm_2 (difference result_k exact_k) / norm_2 exact_k.

Definition spec_ratios (result exact : list (complex float)) : list float :=
  zip_with spec_ratio result exact.

(** The square root of the sum of the squared error norms over the sum of
    the squared norms of [exact]. *)
Definition spec_aggregate (result exact : list (complex float)) : float :=
  sqrt (fsum (zip_with (fun r e => norm_2_sq (difference r e)) result exact)
        / fsum (map norm_2_sq exact)).

(** The mean of the per-target ratios: their sum over [M]. *)
Definition spec_average (result exact : list (complex float)) : float :=
  fsum (spec_ratios result exact) / count (length result).

End Norms.

(** [m] is the greatest of 0 and the numbers of [xs] that are not NaN: it
    is 0 or one of [xs], it is not negative, and no member of [xs] that is
    a number exceeds it. *)
Definition greatest_with_zero (m : float) (xs : list float) : Prop :=
  (0 <=? m) = true /\
  (m = 0 \/ In m xs) /\
  (forall x, In x xs -> is_nan x = false -> (x <=? m) = true).

(** C8 as the claim words it, for one run: the three figures are the
    aggregate, the mean and the maximum of the per-target ratios. *)
Definition figures_claimed (norm_2 norm_2_sq : complex float -> float)
    (result exact : list (complex float)) : Prop :=
  let rep := analyse norm_2 norm_2_sq result exact in
  tot_rel_err rep = spec_aggregate norm_2_sq result exact /\
  ave_rel_err rep = spec_average norm_2 result exact /\
  is_maximum (max_rel_err rep) (spec_ratios norm_2 result exact).

End ErrorSpec.

(** * The order of the binary64 numbers *)

Module FloatOrder.
Local Open Scope Z_scope.

(** A key per number that is not NaN: the comparison of two numbers is the
    lexicographic comparison of their keys.  The two zeros share a key. *)
Definition rank (f : spec_float) : Z * Z * Z :=
  match f with
  | S754_nan => (0, 0, 0)
  | S754_zero _ => (0, 0, 0)
  | S754_infinity true => (-2, 0, 0)
  | S754_infinity false => (2, 0, 0)
  | S754_finite true m e => (-1, - e, - Zpos m)
  | S754_finite false m e => (1, e, Zpos m)
  end.

Definition lex (p q : Z * Z * Z) : comparison :=
  match fst (fst p) ?= fst (fst q) with
  | Eq => match snd (fst p) ?= snd (fst q) with
          | Eq => snd p ?= snd q
          | c => c
          end
  | c => c
  end.

Definition lt3 (p q : Z * Z * Z) : Prop :=
  fst (fst p) < fst (fst q) \/
  (fst (fst p) = fst (fst q) /\
   (snd (fst p) < snd (fst q) \/
    (snd (fst p) = snd (fst q) /\ snd p < snd q))).

(** [x] is a number: not NaN. *)
Definition number (x : float) : Prop := Prim2SF x <> S754_nan.

Definition key (x : float) : Z * Z * Z := rank (Prim2SF x).

End FloatOrder.

(** * The whole of [main] *)

Module Driver.
Import Butterfly ErrorAnalysis.

(** How [main] ends: aborted by the assertion, or returning 0 with the
    final state and, when the check was asked for, the three figures. *)
Inductive exit : Type :=
  | Abort (st : state)
  | Return0 (st : state) (figures : option report).

(** [main], from the two trees on.  [exact] stands for what
    [Direct::matvec] computes; fmmtl/Direct.hpp is not part of the
    sources. *)
Definition main (norm_2 norm_2_sq : complex float -> float)
    (source_tree target_tree : NDTree) (M : nat)
    (exact : list result_type) (checkErrors : bool) : exit :=
  match butterfly source_tree target_tree M with
  | Aborted st => Abort st
  | Swept st =>
      Return0 st
        (if checkErrors
         then Some (analyse norm_2 norm_2_sq (Butterfly.result st) exact)
         else None)
  end.

End Driver.

(** * The command line *)

Module CommandLine.
Local Open Scope Z_scope.

(** The three settings of [main]. *)
Record options : Type := Options { N : Z; M : Z; checkErrors : bool }.

(** [int N = 1000; int M = 1000; bool checkErrors = true;] *)
Definition defaults : options := Options 1000 1000 true.

Definition set_N (o : options) (n : Z) : options :=
  Options n (M o) (checkErrors o).
Definition set_M (o : options) (m : Z) : options :=
  Options (N o) m (checkErrors o).
Definition set_nocheck (o : options) : options :=
  Options (N o) (M o) false.

(** [strcmp(a, b) == 0] *)
Definition same (a b : string) : bool := String.eqb a b.

(** One of the three arguments the loop looks for. *)
Definition is_option (a : string) : bool :=
  same a "-N" || same a "-M" || same a "-nocheck".

Section Atoi.

(** [atoi] of the C library, taken as it comes. *)
Variable atoi : string -> Z.

(** The loop over [argv[i]], from the argument at hand on.  After [-N] or
    [-M] the loop reads [argv[++i]] whatever it is; when there is no such
    argument, [argv[argc]] is the null pointer and [atoi] of it has no
    defined outcome: [None]. *)
Fixpoint parse (args : list string) (o : options) : option options :=
  match args with
  | [] => Some o
  | a :: rest =>
      if same a "-N" then
        match rest with
        | v :: rest' => parse rest' (set_N o (atoi v))
        | [] => None
        end
      else if same a "-M" then
        match rest with
        | v :: rest' => parse rest' (set_M o (atoi v))
        | [] => None
        end
      else if same a "-nocheck" then parse rest (set_nocheck o)
      else parse rest o
  end.

(** [for (int i = 1; i < argc; ++i)]: [argv[0]] is skipped. *)
Definition parse_args (argv : list string) : option options :=
  parse (tail argv) defaults.

End Atoi.

(** A reader of decimal numerals after the C library's [atoi], which
    stands for it where a concrete one is needed: white space is skipped,
    then an optional sign and the digits that follow are read, and the
    number is brought into the range of [int]. *)
Definition digit (c : Ascii.ascii) : option Z :=
  let n := Z.of_nat (Ascii.nat_of_ascii c) in
  if (48 <=? n) && (n <=? 57) then Some (n - 48) else None.

Fixpoint digits (s : string) (acc : Z) : Z :=
  match s with
  | String c s' =>
      match digit c with
      | Some d => digits s' (10 * acc + d)
      | None => acc
      end
  | EmptyString => acc
  end.

(** [isspace] in the C locale: the space and the characters 9 to 13. *)
Definition is_space (c : Ascii.ascii) : bool :=
  let n := Z.of_nat (Ascii.nat_of_ascii c) in
  (n =? 32) || ((9 <=? n) && (n <=? 13)).

Fixpoint skip_space (s : string) : string :=
  match s with
  | String c s' => if is_space c then skip_space s' else s
  | EmptyString => s
  end.

Definition decimal (s : string) : Z :=
  match skip_space s with
  | String c s' =>
      let n := Z.of_nat (Ascii.nat_of_ascii c) in
      Butterfly.to_int
        (if n =? 45 then - digits s' 0
         else if n =? 43 then digits s' 0
         else digits (String c s') 0)
  | EmptyString => 0
  end.

End CommandLine.

(** * Reading the record of the sweep *)

Module Passes.
Import Butterfly.
Local Open Scope Z_scope.

(** The running indices of a pass are the positions of its two boxes in
    the levels the loops range over. *)
Definition well_indexed (mL : Z) (src tgt : NDTree) (v : visit) : Prop :=
  0 <= v_s_idx v /\
  boxes (mL - v_L v) src !! Z.to_nat (v_s_idx v) = Some (v_sbox v) /\
  0 <= v_t_idx v /\
  boxes (v_L v) tgt !! Z.to_nat (v_t_idx v) = Some (v_tbox v).

(** The two branches a pass below the split level can enter. *)
Definition below_split (L : Z) (sbox tbox : box) : list op :=
  [ if (L =? 0) || is_leaf sbox then S2M else M2M;
    if is_leaf tbox then L2T else M2T ].

(** The pairs of boxes of the levels swept, counted. *)
Definition pass_count (mL Ls : Z) (src tgt : NDTree) : nat :=
  list_sum (map (fun L => (tree_boxes src (mL - L) * tree_boxes tgt L)%nat)
                (seqZ 0 Ls)).

End Passes.

(** * Facts about the scheduler *)

Module ButterflyFacts.
Import Butterfly.
Local Open Scope Z_scope.

(** ** Loops *)

Section FoldInvariant.
Context {A B : Type} (f : A -> B -> A) (P : A -> Prop).
Hypothesis step : forall a b, P a -> P (f a b).

Lemma fold_left_invariant (l : list B) (a : A) : P a -> P (fold_left f l a).
Proof using step.
  revert a. induction l as [|b l IH]; intros a Ha; cbn; auto.
Qed.
End FoldInvariant.

(** ** The branches *)

Lemma run_same (o : op) (st : state) : run o st = st.
Proof. destruct o; reflexivity. Qed.

Lemma select_state (mL Ls L : Z) (sb tb : box) (st : state) :
  fst (select mL Ls L sb tb st) = st.
Proof.
  unfold select, enter.
  repeat match goal with |- context [if ?c then _ else _] => destruct c end;
    cbn; rewrite ?run_same; reflexivity.
Qed.

Lemma select_entered (mL Ls L : Z) (sb tb : box) (st : state) :
  snd (select mL Ls L sb tb st) = entered mL Ls L sb tb.
Proof.
  unfold entered, select, enter.
  repeat match goal with |- context [if ?c then _ else _] => destruct c end;
    reflexivity.
Qed.

Lemma entered_rules (mL Ls L : Z) (sb tb : box) :
  entered mL Ls L sb tb =
  [source_rule Ls L sb] ++ (if L =? Ls then [M2L] else []) ++ [target_rule mL Ls L tb].
Proof.
  unfold entered, select, enter, source_rule, target_rule.
  repeat match goal with |- context [if ?c then _ else _] => destruct c end;
    reflexivity.
Qed.

(** ** Passes *)

Lemma extends_refl (st : state) : extends st st [].
Proof. unfold extends. rewrite app_nil_r. auto. Qed.

Lemma extends_trans (a b c : state) (v1 v2 : list visit) :
  extends a b v1 -> extends b c v2 -> extends a c (v1 ++ v2).
Proof.
  unfold extends. intros (R1 & M1 & L1 & V1) (R2 & M2 & L2 & V2).
  rewrite R2, M2, L2, V2, V1, app_assoc. auto.
Qed.

Lemma target_loop (mL Ls L s : Z) (sb : box) (tbs : list box) :
  forall (t : Z) (st : state),
  exists vs,
    extends st (snd (fold_left (target_step mL Ls L s sb) tbs (t, st))) vs /\
    map triple vs = map (fun tb => (L, sb, tb)) tbs /\
    Forall (obeys mL Ls) vs.
Proof.
  induction tbs as [|tb tbs IH]; intros t st.
  - exists []. cbn. auto using extends_refl.
  - cbn [fold_left]. unfold target_step at 2. cbn [fst snd].
    pose proof (select_state mL Ls L sb tb st) as Hs.
    pose proof (select_entered mL Ls L sb tb st) as He.
    destruct (select mL Ls L sb tb st) as [st1 ops]. cbn in Hs, He. subst st1 ops.
    set (v := Visit L s (t + 1) sb tb (entered mL Ls L sb tb)).
    destruct (IH (t + 1) (note v st)) as (vs & Hext & Htr & Hob).
    exists (v :: vs). split; [|split].
    + change (v :: vs) with ([v] ++ vs).
      apply (extends_trans st (note v st)); [|exact Hext].
      unfold extends, note. cbn. auto.
    + cbn. rewrite Htr. reflexivity.
    + constructor; [reflexivity | exact Hob].
Qed.

Lemma source_loop (mL Ls L : Z) (tgt : NDTree) (sbs : list box) :
  forall (s : Z) (st : state),
  exists vs,
    extends st (snd (fold_left (source_step mL Ls L tgt) sbs (s, st))) vs /\
    map triple vs = cross L sbs (boxes L tgt) /\
    Forall (obeys mL Ls) vs.
Proof.
  induction sbs as [|sb sbs IH]; intros s st.
  - exists []. cbn. auto using extends_refl.
  - cbn [fold_left]. unfold source_step at 2. cbn [fst snd].
    destruct (target_loop mL Ls L (s + 1) sb (boxes L tgt) (-1) st)
      as (v1 & E1 & T1 & O1).
    destruct (IH (s + 1)
                (snd (fold_left (target_step mL Ls L (s + 1) sb) (boxes L tgt) (-1, st))))
      as (v2 & E2 & T2 & O2).
    exists (v1 ++ v2). split; [|split].
    + eapply extends_trans; eauto.
    + rewrite map_app, T1, T2. unfold cross. cbn [list_prod].
      rewrite map_app, map_map. reflexivity.
    + apply Forall_app. auto.
Qed.

Lemma level_loop (mL Ls : Z) (src tgt : NDTree) (ls : list Z) :
  forall st : state,
  exists vs,
    extends st (fold_left (level_step mL Ls src tgt) ls st) vs /\
    map triple vs =
      flat_map (fun L => cross L (boxes (mL - L) src) (boxes L tgt)) ls /\
    Forall (obeys mL Ls) vs.
Proof.
  induction ls as [|L ls IH]; intros st.
  - exists []. cbn. auto using extends_refl.
  - cbn [fold_left flat_map]. unfold level_step at 2.
    destruct (source_loop mL Ls L tgt (boxes (mL - L) src) (-1) st)
      as (v1 & E1 & T1 & O1).
    destruct (IH (snd (fold_left (source_step mL Ls L tgt) (boxes (mL - L) src) (-1, st))))
      as (v2 & E2 & T2 & O2).
    exists (v1 ++ v2). split; [|split].
    + eapply extends_trans; eauto.
    + rewrite map_app, T1, T2. reflexivity.
    + apply Forall_app. auto.
Qed.

Lemma sweep_passes (mL Ls : Z) (src tgt : NDTree) (st : state) :
  exists vs,
    extends st (sweep mL Ls src tgt st) vs /\
    map triple vs =
      flat_map (fun L => cross L (boxes (mL - L) src) (boxes L tgt)) (seqZ 0 Ls) /\
    Forall (obeys mL Ls) vs.
Proof. apply level_loop. Qed.

(** ** Sizing *)

Lemma resize_multipole_fold (n : nat) (bs : list box) :
  forall (st : state) (k : nat),
  let st' := fold_left (resize_multipole n) bs st in
  (multipole st' !!! k =
     if decide (k ∈ map index bs) then resize n [] (multipole st !!! k)
     else multipole st !!! k) /\
  local st' = local st /\ result st' = result st /\ visits st' = visits st.
Proof.
  induction bs as [|b bs IH]; intros st k; cbn zeta.
  - cbn. rewrite decide_False by apply not_elem_of_nil. auto.
  - cbn [fold_left map].
    destruct (IH (resize_multipole n st b) k) as (Hm & Hl & Hr & Hv).
    rewrite Hm, Hl, Hr, Hv. cbn [resize_multipole multipole local result visits].
    repeat split.
    rewrite lookup_total_insert.
    destruct (decide (k ∈ map index bs)) as [Hin|Hin];
      destruct (decide (index b = k)) as [->|Hne].
    + rewrite decide_True by (left). apply resize_idemp.
    + rewrite decide_True by (right; exact Hin). reflexivity.
    + rewrite decide_True by (left). reflexivity.
    + rewrite decide_False; [reflexivity|].
      intros H. apply elem_of_cons in H as [->|H]; [apply Hne|apply Hin]; auto.
Qed.

Lemma resize_local_fold (n : nat) (bs : list box) :
  forall (st : state) (k : nat),
  let st' := fold_left (resize_local n) bs st in
  (local st' !!! k =
     if decide (k ∈ map index bs) then resize n [] (local st !!! k)
     else local st !!! k) /\
  multipole st' = multipole st /\ result st' = result st /\ visits st' = visits st.
Proof.
  induction bs as [|b bs IH]; intros st k; cbn zeta.
  - cbn. rewrite decide_False by apply not_elem_of_nil. auto.
  - cbn [fold_left map].
    destruct (IH (resize_local n st b) k) as (Hm & Hl & Hr & Hv).
    rewrite Hm, Hl, Hr, Hv. cbn [resize_local multipole local result visits].
    repeat split.
    rewrite lookup_total_insert.
    destruct (decide (k ∈ map index bs)) as [Hin|Hin];
      destruct (decide (index b = k)) as [->|Hne].
    + rewrite decide_True by (left). apply resize_idemp.
    + rewrite decide_True by (right; exact Hin). reflexivity.
    + rewrite decide_True by (left). reflexivity.
    + rewrite decide_False; [reflexivity|].
      intros H. apply elem_of_cons in H as [->|H]; [apply Hne|apply Hin]; auto.
Qed.

Lemma initialize_level_multipole (mL : Z) (src tgt : NDTree) (st : state) (L : Z) (k : nat) :
  multipole (initialize_level mL src tgt st L) !!! k =
  if decide (k ∈ map index (boxes (mL - L) src))
  then resize (tree_boxes tgt L) [] (multipole st !!! k)
  else multipole st !!! k.
Proof.
  unfold initialize_level.
  destruct (resize_local_fold (tree_boxes src (mL - L)) (boxes L tgt)
              (fold_left (resize_multipole (tree_boxes tgt L)) (boxes (mL - L) src) st) k)
    as (_ & -> & _).
  apply resize_multipole_fold.
Qed.

Lemma initialize_level_local (mL : Z) (src tgt : NDTree) (st : state) (L : Z) (k : nat) :
  local (initialize_level mL src tgt st L) !!! k =
  if decide (k ∈ map index (boxes L tgt))
  then resize (tree_boxes src (mL - L)) [] (local st !!! k)
  else local st !!! k.
Proof.
  unfold initialize_level.
  destruct (resize_local_fold (tree_boxes src (mL - L)) (boxes L tgt)
              (fold_left (resize_multipole (tree_boxes tgt L)) (boxes (mL - L) src) st) k)
    as (-> & _).
  destruct (resize_multipole_fold (tree_boxes tgt L) (boxes (mL - L) src) st k)
    as (_ & -> & _).
  reflexivity.
Qed.

Lemma initialize_level_frame (mL : Z) (src tgt : NDTree) (st : state) (L : Z) :
  result (initialize_level mL src tgt st L) = result st /\
  visits (initialize_level mL src tgt st L) = visits st.
Proof.
  unfold initialize_level.
  destruct (resize_local_fold (tree_boxes src (mL - L)) (boxes L tgt)
              (fold_left (resize_multipole (tree_boxes tgt L)) (boxes (mL - L) src) st) 0%nat)
    as (_ & _ & -> & ->).
  destruct (resize_multipole_fold (tree_boxes tgt L) (boxes (mL - L) src) st 0%nat)
    as (_ & _ & -> & ->).
  auto.
Qed.

Lemma initialize_frame (mL : Z) (src tgt : NDTree) (st : state) :
  result (initialize mL src tgt st) = result st /\
  visits (initialize mL src tgt st) = visits st.
Proof.
  unfold initialize.
  apply (fold_left_invariant (initialize_level mL src tgt)
           (fun s => result s = result st /\ visits s = visits st)); [|auto].
  intros a L [Hr Hv].
  destruct (initialize_level_frame mL src tgt a L) as [-> ->]. auto.
Qed.

(** A family of slots sized level by level: every level sizes the slots of
    its own boxes and leaves every other slot alone. *)
Section Slots.
Variable proj : state -> gmap nat (list (list (complex float))).
Variable step : state -> Z -> state.
Variable bx : Z -> list box.
Variable sz : Z -> nat.

Hypothesis step_slots : forall st L k,
  proj (step st L) !!! k =
  if decide (k ∈ map index (bx L)) then resize (sz L) [] (proj st !!! k)
  else proj st !!! k.

Hypothesis apart : forall L L' b b',
  L <> L' -> b ∈ bx L -> b' ∈ bx L' -> index b <> index b'.

Lemma slots_untouched (ls : list Z) :
  forall (st : state) (k : nat),
  (forall L, L ∈ ls -> k ∉ map index (bx L)) ->
  proj (fold_left step ls st) !!! k = proj st !!! k.
Proof using step_slots.
  induction ls as [|L ls IH]; intros st k Hk; [reflexivity|].
  cbn [fold_left]. rewrite IH.
  - rewrite step_slots, decide_False; [reflexivity|]. apply Hk. left.
  - intros L' HL'. apply Hk. right. exact HL'.
Qed.

Lemma slots_sized (ls : list Z) :
  NoDup ls ->
  forall (st : state) (L : Z) (b : box),
  L ∈ ls -> b ∈ bx L ->
  proj (fold_left step ls st) !!! index b = resize (sz L) [] (proj st !!! index b).
Proof using step_slots apart.
  induction 1 as [|L0 ls Hnot Hnd IH]; intros st L b HL Hb.
  - apply elem_of_nil in HL as [].
  - cbn [fold_left]. apply elem_of_cons in HL as [->|HL].
    + rewrite slots_untouched.
      * rewrite step_slots, decide_True; [reflexivity|].
        apply list_elem_of_fmap. exists b. auto.
      * intros L' HL' Hin. apply list_elem_of_fmap in Hin as (b' & Heq & Hb').
        apply (apart L0 L' b b'); auto. intros ->. contradiction.
    + rewrite (IH _ L b HL Hb). rewrite step_slots, decide_False; [reflexivity|].
      intros Hin. apply list_elem_of_fmap in Hin as (b' & Heq & Hb').
      apply (apart L L0 b b'); auto. intros ->. contradiction.
Qed.
End Slots.

(** Boxes of two different levels of a tree with distinct boxes differ. *)
Lemma distinct_levels (t : NDTree) :
  distinct_boxes t ->
  forall (i j : nat) (b b' : box),
  i <> j -> b ∈ nth i t [] -> b' ∈ nth j t [] -> index b <> index b'.
Proof.
  unfold distinct_boxes.
  induction t as [|l t IH]; intros Hnd i j b b' Hij Hb Hb'.
  - destruct i; apply elem_of_nil in Hb as [].
  - cbn [concat] in Hnd. rewrite map_app in Hnd.
    apply NoDup_app in Hnd as (_ & Hdis & Hnd).
    assert (Hsub : forall n x, x ∈ nth n t [] -> index x ∈ map index (concat t)).
    { intros n x Hx. apply list_elem_of_fmap. exists x. split; [reflexivity|].
      apply list_elem_of_In, in_concat. exists (nth n t []). split.
      - destruct (le_lt_dec (length t) n) as [Hge|Hlt].
        + rewrite nth_overflow in Hx by exact Hge. apply elem_of_nil in Hx as [].
        + apply nth_In. exact Hlt.
      - apply list_elem_of_In. exact Hx. }
    destruct i as [|i], j as [|j]; cbn [nth] in Hb, Hb'.
    + congruence.
    + intros Heq. apply (Hdis (index b)).
      * apply list_elem_of_fmap. exists b. auto.
      * rewrite Heq. eapply Hsub; eauto.
    + intros Heq. apply (Hdis (index b')).
      * apply list_elem_of_fmap. exists b'. auto.
      * rewrite <- Heq. eapply Hsub; eauto.
    + apply (IH Hnd i j); auto.
Qed.

Lemma distinct_boxes_apart (t : NDTree) (L L' : Z) (b b' : box) :
  distinct_boxes t -> L <> L' -> b ∈ boxes L t -> b' ∈ boxes L' t ->
  index b <> index b'.
Proof.
  unfold boxes. intros Hd Hne Hb Hb'.
  destruct (Z.ltb_spec L 0); [apply elem_of_nil in Hb as []|].
  destruct (Z.ltb_spec L' 0); [apply elem_of_nil in Hb' as []|].
  apply (distinct_levels t Hd (Z.to_nat L) (Z.to_nat L')); auto. lia.
Qed.

Lemma initialize_multipole (mL : Z) (src tgt : NDTree) (st : state) (L : Z) (b : box) :
  distinct_boxes src -> 0 <= L <= mL -> b ∈ boxes (mL - L) src ->
  multipole (initialize mL src tgt st) !!! index b =
  resize (tree_boxes tgt L) [] (multipole st !!! index b).
Proof.
  intros Hd HL Hb. unfold initialize.
  apply (slots_sized multipole (initialize_level mL src tgt)
           (fun L => boxes (mL - L) src) (tree_boxes tgt)).
  - intros. apply initialize_level_multipole.
  - intros L1 L2 b1 b2 Hne. apply (distinct_boxes_apart src); auto. lia.
  - apply NoDup_seqZ.
  - apply elem_of_seqZ. lia.
  - exact Hb.
Qed.

Lemma initialize_local (mL : Z) (src tgt : NDTree) (st : state) (L : Z) (b : box) :
  distinct_boxes tgt -> 0 <= L <= mL -> b ∈ boxes L tgt ->
  local (initialize mL src tgt st) !!! index b =
  resize (tree_boxes src (mL - L)) [] (local st !!! index b).
Proof.
  intros Hd HL Hb. unfold initialize.
  apply (slots_sized local (initialize_level mL src tgt)
           (fun L => boxes L tgt) (fun L => tree_boxes src (mL - L))).
  - intros. apply initialize_level_local.
  - intros L1 L2 b1 b2 Hne. apply (distinct_boxes_apart tgt); auto.
  - apply NoDup_seqZ.
  - apply elem_of_seqZ. lia.
  - exact Hb.
Qed.

(** ** The run as a whole *)

Lemma sized_frame (src tgt : NDTree) (M : nat) :
  result (sized src tgt M) = repeat czero M /\ visits (sized src tgt M) = [].
Proof. unfold sized. apply (initialize_frame _ src tgt (initial M)). Qed.

Lemma butterfly_passes (src tgt : NDTree) (M : nat) :
  let mL := max_L src tgt in
  let Ls := L_split mL in
  extends (sized src tgt M) (final (butterfly src tgt M))
          (visits (final (butterfly src tgt M))) /\
  map triple (visits (final (butterfly src tgt M))) =
    flat_map (fun L => cross L (boxes (mL - L) src) (boxes L tgt)) (seqZ 0 Ls) /\
  Forall (obeys mL Ls) (visits (final (butterfly src tgt M))).
Proof.
  intros mL Ls. unfold butterfly. fold mL. fold Ls.
  destruct (sized_frame src tgt M) as [_ Hv].
  destruct (Z.gtb_spec Ls 0) as [Hpos|Hneg]; cbn [final].
  - destruct (sweep_passes mL Ls src tgt (sized src tgt M)) as (vs & Hext & Htr & Hob).
    assert (Hvs : visits (sweep mL Ls src tgt (sized src tgt M)) = vs).
    { destruct Hext as (_ & _ & _ & ->). rewrite Hv. reflexivity. }
    rewrite Hvs. auto.
  - rewrite Hv. split; [apply extends_refl|].
    rewrite seqZ_nil by lia. cbn. auto.
Qed.

Lemma passes_levels (mL : Z) (src tgt : NDTree) (ls : list Z) (vs : list visit) :
  map triple vs = flat_map (fun L => cross L (boxes (mL - L) src) (boxes L tgt)) ls ->
  Forall (fun v => In (v_L v) ls) vs.
Proof.
  intros Htr. apply List.Forall_forall. intros v Hv.
  apply (in_map triple) in Hv. rewrite Htr in Hv.
  apply in_flat_map in Hv as (L & HL & Hin).
  unfold cross in Hin. apply in_map_iff in Hin as (p & Hp & _).
  unfold triple in Hp. injection Hp as <- _ _. exact HL.
Qed.

Lemma at_level_triples (L : Z) (vs : list visit) :
  map triple (at_level L vs) =
  List.filter (fun t => fst (fst t) =? L) (map triple vs).
Proof.
  unfold at_level. induction vs as [|v vs IH]; [reflexivity|].
  cbn [List.filter map].
  change (fst (fst (triple v))) with (v_L v).
  destruct (v_L v =? L); cbn [map]; rewrite IH; reflexivity.
Qed.

Lemma filter_cross (L L' : Z) (sbs tbs : list box) :
  List.filter (fun t => fst (fst t) =? L) (cross L' sbs tbs) =
  if L' =? L then cross L' sbs tbs else [].
Proof.
  unfold cross. induction (list_prod sbs tbs) as [|p ps IH]; cbn [map List.filter fst].
  - destruct (L' =? L); reflexivity.
  - rewrite IH. destruct (L' =? L); reflexivity.
Qed.

Lemma filter_levels (L : Z) (g : Z -> list (Z * box * box)) (ls : list Z) :
  (forall L', List.filter (fun t => fst (fst t) =? L) (g L') =
              if L' =? L then g L' else []) ->
  NoDup ls -> In L ls ->
  List.filter (fun t => fst (fst t) =? L) (flat_map g ls) = g L.
Proof.
  intros Hg Hnd.
  assert (Hout : forall ks, ~ In L ks ->
            List.filter (fun t => fst (fst t) =? L) (flat_map g ks) = []).
  { induction ks as [|k ks IH]; intros Hk; [reflexivity|].
    cbn [flat_map]. rewrite List.filter_app, Hg, IH.
    - destruct (Z.eqb_spec k L) as [->|_]; [|reflexivity].
      exfalso. apply Hk. left. reflexivity.
    - intros H. apply Hk. right. exact H. }
  induction Hnd as [|k ks Hk Hnd IH]; intros HL; [destruct HL|].
  cbn [flat_map]. rewrite List.filter_app, Hg.
  destruct HL as [->|HL].
  - rewrite Z.eqb_refl, Hout, app_nil_r; [reflexivity|].
    intros H. apply Hk, list_elem_of_In. exact H.
  - destruct (Z.eqb_spec k L) as [->|_].
    + exfalso. apply Hk, list_elem_of_In. exact HL.
    + apply IH. exact HL.
Qed.

Lemma L_split_small (m : Z) : m < 2 <-> L_split m <= 0.
Proof.
  unfold L_split. split; intros H.
  - destruct (Z.le_gt_cases 0 m) as [Hm|Hm].
    + assert (m = 0 \/ m = 1) as [-> | ->] by lia; cbv; discriminate.
    + apply Z.quot_le_upper_bound; lia.
  - destruct (Z.lt_ge_cases m 2) as [|Hm]; [assumption|].
    assert (1 <= Z.quot m 2) by (apply Z.quot_le_lower_bound; lia). lia.
Qed.

(** The levels the two loops ask the trees for exist in both trees. *)
Lemma max_L_below_levels (src tgt : NDTree) :
  max_L src tgt < levels src /\ max_L src tgt < levels tgt.
Proof.
  unfold max_L, to_int, levels.
  set (m := Z.min (Z.of_nat (length src)) (Z.of_nat (length tgt))).
  assert (Hm : 0 <= m) by (unfold m; lia).
  assert (Hle : (m - 1 + 2 ^ 31) mod 2 ^ 32 <= m - 1 + 2 ^ 31)
    by (apply Z.mod_le; lia).
  unfold m in *. lia.
Qed.

(** ** The claims about the scheduler *)

(** C1, as amended.  The sweep goes through the levels up to the split: for
    every level index [L] with [0 <= L < L_split] the passes made at [L]
    are, in order, every source box of level [max_L - L] paired with every
    target box of level [L]; and no pass is made at a level below 0 or
    above [L_split]. *)
Theorem sweep_up_to_split (src tgt : NDTree) (M : nat) :
  let mL := max_L src tgt in
  let Ls := L_split mL in
  let vs := visits (final (butterfly src tgt M)) in
  (forall L, 0 <= L < Ls ->
     map triple (at_level L vs) = cross L (boxes (mL - L) src) (boxes L tgt)) /\
  Forall (fun v => 0 <= v_L v <= Ls) vs.
Proof.
  intros mL Ls vs.
  destruct (butterfly_passes src tgt M) as (_ & Htr & _).
  fold mL Ls vs in Htr. split.
  - intros L HL. rewrite at_level_triples, Htr.
    apply (filter_levels L (fun L => cross L (boxes (mL - L) src) (boxes L tgt))).
    + intros L'. apply filter_cross.
    + apply NoDup_seqZ.
    + apply list_elem_of_In, elem_of_seqZ. lia.
  - apply passes_levels in Htr. eapply List.Forall_impl; [|exact Htr].
    cbn beta. intros v Hv. apply list_elem_of_In, elem_of_seqZ in Hv. lia.
Qed.

Lemma sweep_up_to_split_witness :
  map triple (at_level 0 (visits (final (butterfly tree3 tree3 4)))) =
  cross 0 (boxes (max_L tree3 tree3 - 0) tree3) (boxes 0 tree3).
Proof.
  apply (proj1 (sweep_up_to_split tree3 tree3 4) 0). vm_compute. split; [discriminate | reflexivity].
Defined.

(** C1, as the claim has it, fails on two trees of three levels: nothing is
    swept at the last level. *)
Lemma sweep_stops_before_max_L : ~ sweeps_all_levels tree3 tree3 4.
Proof.
  intros H. specialize (H 2).
  assert (Hr : 0 <= 2 <= max_L tree3 tree3) by (vm_compute; split; discriminate).
  specialize (H Hr). vm_compute in H. discriminate H.
Qed.

(** C2.  The branch of M2L is never entered: on no input does a pass of the
    sweep enter it, the guard [L == L_split] being tested only at levels
    below [L_split]. *)
Theorem m2l_never_entered (src tgt : NDTree) (M : nat) :
  Forall (fun v => ~ In M2L (v_ops v)) (visits (final (butterfly src tgt M))).
Proof.
  destruct (butterfly_passes src tgt M) as (_ & Htr & Hob).
  apply passes_levels in Htr.
  apply List.Forall_forall. intros v Hv.
  rewrite List.Forall_forall in Htr, Hob.
  specialize (Htr v Hv). specialize (Hob v Hv). cbn beta in Htr.
  apply list_elem_of_In, elem_of_seqZ in Htr.
  unfold obeys in Hob. rewrite Hob, entered_rules.
  destruct (Z.eqb_spec (v_L v) (L_split (max_L src tgt))) as [Heq|_]; [lia|].
  cbn. unfold source_rule, target_rule.
  repeat match goal with |- context [if ?c then _ else _] => destruct c end;
    intros [H|[H|[]]]; discriminate H.
Qed.

(** The same on two trees of three levels, where [max_L] is 2 and the split
    level is 1: the sweep ends without a pass at level 1. *)
Example m2l_on_tree3 :
  max_L tree3 tree3 = 2 /\ L_split 2 = 1 /\
  at_level 1 (visits (final (butterfly tree3 tree3 4))) = [] /\
  existsb (fun v => existsb (op_eqb M2L) (v_ops v))
          (visits (final (butterfly tree3 tree3 4))) = false.
Proof. vm_compute. auto. Qed.

(** C3.  The three conditionals enter exactly one source-side branch and
    exactly one target-side branch, the one the rules name: this holds of
    the body at any level and any pair of boxes, and of every pass the
    sweep makes. *)
Theorem one_operator_per_side (src tgt : NDTree) (M : nat) :
  (forall m l L sb tb st,
     List.filter source_side (snd (select m l L sb tb st)) = [source_rule l L sb] /\
     List.filter target_side (snd (select m l L sb tb st)) = [target_rule m l L tb]) /\
  let mL := max_L src tgt in
  let Ls := L_split mL in
  Forall (fun v =>
            List.filter source_side (v_ops v) = [source_rule Ls (v_L v) (v_sbox v)] /\
            List.filter target_side (v_ops v) = [target_rule mL Ls (v_L v) (v_tbox v)])
         (visits (final (butterfly src tgt M))).
Proof.
  assert (Hsel : forall mL Ls L sb tb,
     List.filter source_side (entered mL Ls L sb tb) = [source_rule Ls L sb] /\
     List.filter target_side (entered mL Ls L sb tb) = [target_rule mL Ls L tb]).
  { intros. rewrite entered_rules. unfold source_rule, target_rule.
    repeat match goal with |- context [if ?c then _ else _] => destruct c end;
      split; reflexivity. }
  split.
  - intros. rewrite select_entered. apply Hsel.
  - intros mL Ls. destruct (butterfly_passes src tgt M) as (_ & _ & Hob).
    eapply List.Forall_impl; [|exact Hob]. cbn beta. intros v Hv.
    unfold obeys in Hv. rewrite Hv. apply Hsel.
Qed.

(** C5.  [max_L < 2] is the same as [L_split <= 0]; in that case the
    assertion fails and the program aborts with no pass of the sweep made,
    whatever the rest of [main] was asked to do. *)
Theorem small_max_L_aborts (src tgt : NDTree) (M : nat) :
  (max_L src tgt < 2 <-> L_split (max_L src tgt) <= 0) /\
  (max_L src tgt < 2 ->
   exists st,
     butterfly src tgt M = Aborted st /\ visits st = [] /\
     forall norm_2 norm_2_sq exact checkErrors,
       Driver.main norm_2 norm_2_sq src tgt M exact checkErrors = Driver.Abort st).
Proof.
  split; [apply L_split_small|].
  intros H. apply L_split_small in H.
  assert (Hb : butterfly src tgt M = Aborted (sized src tgt M)).
  { unfold butterfly.
    destruct (Z.gtb_spec (L_split (max_L src tgt)) 0); [lia|reflexivity]. }
  exists (sized src tgt M). split; [exact Hb|]. split.
  - apply sized_frame.
  - intros. unfold Driver.main. rewrite Hb. reflexivity.
Qed.

Lemma small_max_L_aborts_witness :
  exists st, butterfly tree2 tree3 4 = Aborted st /\ visits st = [].
Proof.
  destruct (proj2 (small_max_L_aborts tree2 tree3 4)) as (st & Hb & Hv & _).
  - vm_compute. reflexivity.
  - exists st. split; assumption.
Defined.

(** C6.  For trees whose level counts an [int] can hold, [max_L] is the
    smaller of the two level counts minus 1, and [L_split] is the quotient
    of [max_L] by 2 of the integer division: the largest integer whose
    double does not exceed [max_L]. *)
Theorem max_L_and_L_split (src tgt : NDTree) :
  Z.min (levels src) (levels tgt) <= 2 ^ 31 ->
  max_L src tgt = Z.min (levels src) (levels tgt) - 1 /\
  L_split (max_L src tgt) = Z.quot (max_L src tgt) 2 /\
  (0 <= max_L src tgt ->
   2 * L_split (max_L src tgt) <= max_L src tgt < 2 * L_split (max_L src tgt) + 2).
Proof.
  intros Hfit.
  assert (Hlo : 0 <= Z.min (levels src) (levels tgt)) by (unfold levels; lia).
  split; [|split].
  - unfold max_L, to_int.
    rewrite Z.mod_small by lia. lia.
  - reflexivity.
  - intros Hnn. unfold L_split.
    pose proof (Z.quot_rem' (max_L src tgt) 2) as Hqr.
    pose proof (Z.rem_bound_pos (max_L src tgt) 2 Hnn ltac:(lia)) as Hr.
    lia.
Qed.

Lemma max_L_and_L_split_witness :
  max_L tree3 tree2 = 1 /\ L_split (max_L tree3 tree2) = 0.
Proof.
  destruct (max_L_and_L_split tree3 tree2) as (H1 & H2 & _).
  - vm_compute. discriminate.
  - split; [rewrite H1 | rewrite H2, H1]; reflexivity.
Defined.

(** C9.  In the state in which the sweep starts, for every level [L] from 0
    to [max_L], the multipole slot of every source box of level [max_L - L]
    holds as many default-constructed vectors as the target tree has boxes
    at level [L], and the local slot of every target box of level [L] as
    many as the source tree has boxes at level [max_L - L]; no pass of the
    sweep has been made by then. *)
Theorem bindings_sized (src tgt : NDTree) (M : nat) :
  distinct_boxes src -> distinct_boxes tgt ->
  let mL := max_L src tgt in
  let st := sized src tgt M in
  visits st = [] /\
  forall L, 0 <= L <= mL ->
    (forall sbox, In sbox (boxes (mL - L) src) ->
       multipole st !!! index sbox = replicate (tree_boxes tgt L) [] /\
       length (multipole st !!! index sbox) = tree_boxes tgt L) /\
    (forall tbox, In tbox (boxes L tgt) ->
       local st !!! index tbox = replicate (tree_boxes src (mL - L)) [] /\
       length (local st !!! index tbox) = tree_boxes src (mL - L)).
Proof.
  intros Hs Ht mL st. split; [apply sized_frame|].
  intros L HL. split.
  - intros sbox Hin. apply list_elem_of_In in Hin.
    unfold st, sized. fold mL.
    rewrite (initialize_multipole mL src tgt (initial M) L sbox Hs HL Hin).
    cbn [initial multipole]. rewrite lookup_total_empty.
    change (inhabitant : multipole_type) with (@nil (list charge_type)).
    rewrite resize_nil. split; [reflexivity|apply length_replicate].
  - intros tbox Hin. apply list_elem_of_In in Hin.
    unfold st, sized. fold mL.
    rewrite (initialize_local mL src tgt (initial M) L tbox Ht HL Hin).
    cbn [initial local]. rewrite lookup_total_empty.
    change (inhabitant : local_type) with (@nil (list result_type)).
    rewrite resize_nil. split; [reflexivity|apply length_replicate].
Qed.

Lemma tree3_distinct : distinct_boxes tree3.
Proof. unfold distinct_boxes. apply (bool_decide_unpack _). vm_compute. exact I. Qed.

Lemma bindings_sized_witness :
  multipole (sized tree3 tree3 4) !!! index (Box 1 false) = [[]; []] /\
  local (sized tree3 tree3 4) !!! index (Box 3 true) = [[]].
Proof.
  destruct (bindings_sized tree3 tree3 4 tree3_distinct tree3_distinct) as [_ H].
  split.
  - destruct (H 1) as [Hm _]; [vm_compute; split; discriminate|].
    apply (proj1 (Hm (Box 1 false) ltac:(vm_compute; auto))).
  - destruct (H 2) as [_ Hl]; [vm_compute; split; discriminate|].
    apply (proj1 (Hl (Box 3 true) ltac:(vm_compute; auto))).
Defined.

(** C10.  The sweep writes nothing.  From whatever state it starts, it
    leaves the result vector and both bindings as they were; so when the
    scheduling part of [main] ends, every entry of the result vector is the
    zero it was initialised with, and the two bindings are those the sizing
    loop established. *)
Theorem sweep_writes_nothing (src tgt : NDTree) (M : nat) :
  (forall mL Ls st,
     result (sweep mL Ls src tgt st) = result st /\
     multipole (sweep mL Ls src tgt st) = multipole st /\
     local (sweep mL Ls src tgt st) = local st) /\
  result (final (butterfly src tgt M)) = repeat czero M /\
  Forall (fun r => r = Complex 0%float 0%float) (result (final (butterfly src tgt M))) /\
  length (result (final (butterfly src tgt M))) = M /\
  multipole (final (butterfly src tgt M)) = multipole (sized src tgt M) /\
  local (final (butterfly src tgt M)) = local (sized src tgt M).
Proof.
  split.
  - intros mL Ls st.
    destruct (sweep_passes mL Ls src tgt st) as (vs & (Hr & Hm & Hl & _) & _). auto.
  - destruct (butterfly_passes src tgt M) as ((Hr & Hm & Hl & _) & _).
    destruct (sized_frame src tgt M) as [Hz _].
    rewrite Hr, Hm, Hl, Hz. repeat split.
    + apply List.Forall_forall. intros r Hin. apply repeat_spec in Hin. exact Hin.
    + apply repeat_length.
Qed.

End ButterflyFacts.

(** * Facts about the order of the binary64 numbers *)

Module FloatOrderFacts.
Import FloatOrder.
Local Open Scope Z_scope.

Lemma SFcompare_rank (f g : spec_float) :
  f <> S754_nan -> g <> S754_nan -> SFcompare f g = Some (lex (rank f) (rank g)).
Proof.
  intros Hf Hg.
  destruct f as [[]|[]| |[] m1 e1], g as [[]|[]| |[] m2 e2];
    try congruence; try reflexivity; unfold lex; cbn [SFcompare rank fst snd].
  change (-1 ?= -1) with Eq. cbv iota.
  rewrite (Z.compare_opp e1 e2), (Z.compare_antisym e1 e2).
  destruct (e1 ?= e2); cbn; reflexivity.
Qed.

Lemma SFcompare_nan_l (g : spec_float) : SFcompare S754_nan g = None.
Proof. reflexivity. Qed.

Lemma SFcompare_nan_r (f : spec_float) : SFcompare f S754_nan = None.
Proof. destruct f as [[]|[]| |[] m e]; reflexivity. Qed.

Lemma lex_cases (p q : Z * Z * Z) :
  (lex p q = Lt /\ lt3 p q) \/ (lex p q = Eq /\ p = q) \/ (lex p q = Gt /\ lt3 q p).
Proof.
  destruct p as [[a b] c], q as [[a' b'] c']. unfold lex, lt3. cbn [fst snd].
  destruct (Z.compare_spec a a'); destruct (Z.compare_spec b b');
    destruct (Z.compare_spec c c'); subst;
    first [ left; split; [reflexivity | lia]
          | right; left; split; reflexivity
          | right; right; split; [reflexivity | lia] ].
Qed.

Lemma lt3_irrefl (p : Z * Z * Z) : ~ lt3 p p.
Proof. unfold lt3. lia. Qed.

Lemma lt3_asym (p q : Z * Z * Z) : lt3 p q -> ~ lt3 q p.
Proof. unfold lt3. lia. Qed.

Lemma lt3_trans (p q r : Z * Z * Z) : lt3 p q -> lt3 q r -> lt3 p r.
Proof. unfold lt3. lia. Qed.

Lemma lt3_total (p q : Z * Z * Z) : lt3 p q \/ p = q \/ lt3 q p.
Proof. destruct (lex_cases p q) as [[_ H]|[[_ H]|[_ H]]]; auto. Qed.

(** The comparison of two numbers, through their keys. *)
Lemma compare_numbers (x y : float) :
  number x -> number y ->
  SFcompare (Prim2SF x) (Prim2SF y) = Some (lex (key x) (key y)).
Proof. intros Hx Hy. apply SFcompare_rank; assumption. Qed.

Lemma compare_some_numbers (x y : float) (c : comparison) :
  SFcompare (Prim2SF x) (Prim2SF y) = Some c -> number x /\ number y.
Proof.
  unfold number. intros H. split; intros E; rewrite E in H.
  - rewrite SFcompare_nan_l in H. discriminate.
  - rewrite SFcompare_nan_r in H. discriminate.
Qed.

Lemma ltb_true_iff (x y : float) :
  (x <? y)%float = true <-> number x /\ number y /\ lt3 (key x) (key y).
Proof.
  rewrite FloatAxioms.ltb_spec. unfold SFltb. split.
  - destruct (SFcompare (Prim2SF x) (Prim2SF y)) as [c|] eqn:E; [|discriminate].
    destruct (compare_some_numbers x y c E) as [Hx Hy].
    rewrite (compare_numbers x y Hx Hy) in E. injection E as <-.
    destruct (lex_cases (key x) (key y)) as [[-> H]|[[-> H]|[-> H]]];
      intros; try discriminate; auto.
  - intros (Hx & Hy & Hlt). rewrite (compare_numbers x y Hx Hy).
    destruct (lex_cases (key x) (key y)) as [[-> H]|[[-> H]|[-> H]]];
      [reflexivity | | ].
    + rewrite H in Hlt. destruct (lt3_irrefl _ Hlt).
    + destruct (lt3_asym _ _ H Hlt).
Qed.

Lemma leb_true_iff (x y : float) :
  (x <=? y)%float = true <-> number x /\ number y /\ ~ lt3 (key y) (key x).
Proof.
  rewrite FloatAxioms.leb_spec. unfold SFleb. split.
  - destruct (SFcompare (Prim2SF x) (Prim2SF y)) as [c|] eqn:E; [|discriminate].
    destruct (compare_some_numbers x y c E) as [Hx Hy].
    rewrite (compare_numbers x y Hx Hy) in E. injection E as <-.
    destruct (lex_cases (key x) (key y)) as [[-> H]|[[-> H]|[-> H]]];
      intros; try discriminate; repeat split; auto.
    + apply lt3_asym. exact H.
    + rewrite H. apply lt3_irrefl.
  - intros (Hx & Hy & Hnlt). rewrite (compare_numbers x y Hx Hy).
    destruct (lex_cases (key x) (key y)) as [[-> H]|[[-> H]|[-> H]]];
      [reflexivity | reflexivity | contradiction].
Qed.

Lemma eqb_true_iff (x y : float) :
  (x =? y)%float = true <-> number x /\ number y /\ key x = key y.
Proof.
  rewrite FloatAxioms.eqb_spec. unfold SFeqb. split.
  - destruct (SFcompare (Prim2SF x) (Prim2SF y)) as [c|] eqn:E; [|discriminate].
    destruct (compare_some_numbers x y c E) as [Hx Hy].
    rewrite (compare_numbers x y Hx Hy) in E. injection E as <-.
    destruct (lex_cases (key x) (key y)) as [[-> H]|[[-> H]|[-> H]]];
      intros; try discriminate; auto.
  - intros (Hx & Hy & Heq). rewrite (compare_numbers x y Hx Hy).
    destruct (lex_cases (key x) (key y)) as [[-> H]|[[-> H]|[-> H]]];
      [ | reflexivity | ]; rewrite Heq in H; destruct (lt3_irrefl _ H).
Qed.

Lemma leb_number_l (x y : float) : (x <=? y)%float = true -> number x.
Proof. intros H. apply leb_true_iff in H. tauto. Qed.

Lemma leb_number_r (x y : float) : (x <=? y)%float = true -> number y.
Proof. intros H. apply leb_true_iff in H. tauto. Qed.

Lemma leb_refl (x : float) : number x -> (x <=? x)%float = true.
Proof. intros H. apply leb_true_iff. auto using lt3_irrefl. Qed.

Lemma eqb_refl (x : float) : number x -> (x =? x)%float = true.
Proof. intros H. apply eqb_true_iff. auto. Qed.

Lemma leb_trans (x y z : float) :
  (x <=? y)%float = true -> (y <=? z)%float = true -> (x <=? z)%float = true.
Proof.
  rewrite !leb_true_iff. intros (Hx & Hy & Hxy) (_ & Hz & Hyz).
  repeat split; auto. intros Hzx.
  destruct (lt3_total (key y) (key x)) as [H|[H|H]].
  - contradiction.
  - rewrite H in Hyz. contradiction.
  - apply Hyz. eapply lt3_trans; eauto.
Qed.

Lemma ltb_leb (x y : float) : (x <? y)%float = true -> (x <=? y)%float = true.
Proof.
  rewrite ltb_true_iff, leb_true_iff. intros (Hx & Hy & H).
  repeat split; auto. intros H'. exact (lt3_asym _ _ H H').
Qed.

Lemma ltb_false_leb (x y : float) :
  number x -> number y -> (x <? y)%float = false -> (y <=? x)%float = true.
Proof.
  intros Hx Hy H. apply leb_true_iff. repeat split; auto.
  intros Hlt. assert (Ht : (x <? y)%float = true) by (apply ltb_true_iff; auto).
  congruence.
Qed.

Lemma leb_antisym (x y : float) :
  (x <=? y)%float = true -> (y <=? x)%float = true -> (x =? y)%float = true.
Proof.
  rewrite !leb_true_iff, eqb_true_iff. intros (Hx & Hy & H1) (_ & _ & H2).
  repeat split; auto.
  destruct (lt3_total (key x) (key y)) as [H|[H|H]]; [contradiction|assumption|contradiction].
Qed.

(** Comparing with NaN. *)
Lemma ltb_nan_r (x y : float) : ~ number y -> (x <? y)%float = false.
Proof.
  intros H. destruct (x <? y)%float eqn:E; [|reflexivity].
  apply ltb_true_iff in E. tauto.
Qed.

End FloatOrderFacts.

(** * Facts about the error analysis *)

Module ErrorAnalysisFacts.
Import ErrorAnalysis FloatOrder FloatOrderFacts.
Local Open Scope float_scope.

(** ** NaN and the infinities *)

Lemma is_nan_iff (x : float) : is_nan x = true <-> ~ number x.
Proof.
  unfold is_nan. rewrite negb_true_iff. split.
  - intros H Hn. rewrite (eqb_refl x Hn) in H. discriminate.
  - intros H. destruct (x =? x) eqn:E; [|reflexivity].
    apply eqb_true_iff in E. tauto.
Qed.

Lemma is_nan_spec (x : float) : Prim2SF x = S754_nan -> is_nan x = true.
Proof. intros H. apply is_nan_iff. unfold number. tauto. Qed.

Lemma is_infinity_spec (x : float) (s : bool) :
  Prim2SF x = S754_infinity s -> is_infinity x = true.
Proof.
  intros H. unfold is_infinity.
  rewrite FloatAxioms.eqb_spec, FloatAxioms.abs_spec, H. reflexivity.
Qed.

Lemma is_zero_spec (x : float) :
  is_zero x = true -> exists s, Prim2SF x = S754_zero s.
Proof.
  unfold is_zero. rewrite FloatAxioms.eqb_spec.
  change (Prim2SF zero) with (S754_zero false).
  destruct (Prim2SF x) as [s|[]| |[] m e]; cbn; intros H; try discriminate.
  exists s. reflexivity.
Qed.

Lemma is_zero_number (x : float) : is_zero x = true -> number x.
Proof. intros H. destruct (is_zero_spec x H) as [s Hs]. unfold number. congruence. Qed.

(** A quotient by zero: NaN when the numerator is zero or NaN, an infinity
    otherwise. *)
Lemma div_by_zero (x y : float) :
  is_zero y = true ->
  (is_nan x = true \/ is_zero x = true -> is_nan (x / y) = true) /\
  (is_nan x = false -> is_zero x = false -> is_infinity (x / y) = true).
Proof.
  intros Hy. destruct (is_zero_spec y Hy) as [sy Ey].
  pose proof (FloatAxioms.div_spec x y) as Hd. rewrite Ey in Hd.
  split.
  - intros [Hx|Hx].
    + apply is_nan_spec. rewrite Hd.
      apply is_nan_iff in Hx. unfold number in Hx.
      destruct (Prim2SF x); try reflexivity; exfalso; apply Hx; discriminate.
    + apply is_nan_spec. rewrite Hd.
      destruct (is_zero_spec x Hx) as [sx ->]. reflexivity.
  - intros Hn Hz. unfold is_zero in Hz. rewrite FloatAxioms.eqb_spec in Hz.
    change (Prim2SF zero) with (S754_zero false) in Hz.
    assert (Hnum : number x).
    { destruct (is_nan x) eqn:E; [discriminate|].
      unfold is_nan in E. apply negb_false_iff in E.
      apply eqb_true_iff in E. tauto. }
    unfold number in Hnum.
    destruct (Prim2SF x) as [sx|sx| |sx m e] eqn:Ex; cbn in Hd.
    + destruct sx; discriminate Hz.
    + eapply is_infinity_spec. exact Hd.
    + congruence.
    + eapply is_infinity_spec. exact Hd.
Qed.

Lemma add_nan_l (x y : float) : is_nan x = true -> is_nan (x + y) = true.
Proof.
  intros H. apply is_nan_spec. rewrite FloatAxioms.add_spec.
  apply is_nan_iff in H. unfold number in H.
  destruct (Prim2SF x); try (exfalso; apply H; discriminate). reflexivity.
Qed.

Lemma add_nan_r (x y : float) : is_nan y = true -> is_nan (x + y) = true.
Proof.
  intros H. apply is_nan_spec. rewrite FloatAxioms.add_spec.
  apply is_nan_iff in H. unfold number in H.
  destruct (Prim2SF y); try (exfalso; apply H; discriminate).
  destruct (Prim2SF x) as [?|?| |? ? ?]; reflexivity.
Qed.

Lemma div_nan_l (x y : float) : is_nan x = true -> is_nan (x / y) = true.
Proof.
  intros H. apply is_nan_spec. rewrite FloatAxioms.div_spec.
  apply is_nan_iff in H. unfold number in H.
  destruct (Prim2SF x); try (exfalso; apply H; discriminate). reflexivity.
Qed.

Lemma std_max_nan (a q : float) : is_nan q = true -> std_max a q = a.
Proof.
  intros H. unfold std_max. rewrite ltb_nan_r; [reflexivity|].
  apply is_nan_iff. exact H.
Qed.

Lemma sum_nan_start (xs : list float) :
  forall a, is_nan a = true -> is_nan (fold_left PrimFloat.add xs a) = true.
Proof.
  induction xs as [|x xs IH]; intros a Ha; [exact Ha|].
  cbn [fold_left]. apply IH, add_nan_l, Ha.
Qed.

Lemma sum_nan_term (xs : list float) (q : float) :
  In q xs -> is_nan q = true ->
  forall a, is_nan (fold_left PrimFloat.add xs a) = true.
Proof.
  induction xs as [|x xs IH]; intros Hin Hq a; [destruct Hin|].
  cbn [fold_left]. destruct Hin as [->|Hin].
  - apply sum_nan_start, add_nan_r, Hq.
  - apply IH; assumption.
Qed.

(** ** The running maximum *)

Lemma std_max_fold (xs : list float) :
  forall m, number m -> Forall number xs ->
  (m <=? fold_left std_max xs m) = true /\
  Forall (fun x => (x <=? fold_left std_max xs m) = true) xs /\
  (fold_left std_max xs m = m \/ In (fold_left std_max xs m) xs).
Proof.
  induction xs as [|x xs IH]; intros m Hm Hxs.
  - cbn. repeat split; [apply leb_refl; exact Hm | constructor | left; reflexivity].
  - apply Forall_cons_1 in Hxs as [Hx Hxs]. cbn [fold_left].
    destruct (m <? x) eqn:E.
    + assert (Hs : std_max m x = x) by (unfold std_max; rewrite E; reflexivity).
      rewrite Hs. destruct (IH x Hx Hxs) as (Hle & Hall & Hin).
      split; [|split].
      * apply (leb_trans m x); [apply ltb_leb; exact E | exact Hle].
      * constructor; assumption.
      * right. destruct Hin as [->|Hin]; [left; reflexivity | right; exact Hin].
    + assert (Hs : std_max m x = m) by (unfold std_max; rewrite E; reflexivity).
      rewrite Hs. destruct (IH m Hm Hxs) as (Hle & Hall & Hin).
      split; [|split].
      * exact Hle.
      * constructor; [|exact Hall].
        apply (leb_trans x m); [apply ltb_false_leb; assumption | exact Hle].
      * destruct Hin as [Hin|Hin]; [left; exact Hin | right; right; exact Hin].
Qed.

Lemma zero_number : number 0.
Proof. unfold number. change (Prim2SF 0) with (S754_zero false). discriminate. Qed.

Lemma std_max_is_maximum (xs : list float) :
  xs <> [] -> Forall (fun x => (0 <=? x) = true) xs ->
  is_maximum (fold_left std_max xs 0) xs.
Proof.
  intros Hne Hpos.
  assert (Hnum : Forall number xs).
  { eapply List.Forall_impl; [|exact Hpos]. cbn beta. intros x. apply leb_number_r. }
  destruct (std_max_fold xs 0 zero_number Hnum) as (_ & Hall & Hin).
  split.
  - destruct Hin as [Hz|Hin].
    + destruct xs as [|x xs]; [congruence|]. exists x. split; [left; reflexivity|].
      rewrite Hz. apply leb_antisym.
      * apply Forall_cons_1 in Hpos as [Hx _]. exact Hx.
      * apply Forall_cons_1 in Hall as [Hx _]. rewrite Hz in Hx. exact Hx.
    + exists (fold_left std_max xs 0). split; [exact Hin|].
      apply eqb_refl. rewrite List.Forall_forall in Hnum. apply Hnum, Hin.
  - rewrite List.Forall_forall in Hall. exact Hall.
Qed.

(** ** The loop *)

Lemma fold_left_shift {A : Type} (f : A -> nat -> A) (l : list nat) :
  forall a, fold_left f (map S l) a = fold_left (fun a k => f a (S k)) l a.
Proof. induction l as [|k l IH]; intros a; cbn; [reflexivity | apply IH]. Qed.

Section Norms.
Variables norm_2 norm_2_sq : complex float -> float.

Lemma sum_errors_from (rs : list result_type) :
  forall (es : list result_type) (a : totals),
  length es = length rs ->
  fold_left (accumulate norm_2 norm_2_sq rs es) (seq 0 (length rs)) a =
  Totals
    (fold_left PrimFloat.add (zip_with (fun r e => norm_2_sq (csub e r)) rs es) (tot_error_sq a))
    (fold_left PrimFloat.add (map norm_2_sq es) (tot_norm_sq a))
    (fold_left PrimFloat.add (ratios norm_2 rs es) (tot_ind_rel_err a))
    (fold_left std_max (ratios norm_2 rs es) (max_ind_rel_err a)).
Proof.
  induction rs as [|r rs IH]; intros es a Hlen; destruct es as [|e es];
    try discriminate Hlen.
  - destruct a; reflexivity.
  - cbn [length seq fold_left]. rewrite <- seq_shift, fold_left_shift.
    injection Hlen as Hlen.
    change (fun a k => accumulate norm_2 norm_2_sq (r :: rs) (e :: es) a (S k))
      with (accumulate norm_2 norm_2_sq rs es).
    rewrite (IH es _ Hlen). reflexivity.
Qed.

Lemma sum_errors_spec (rs es : list result_type) :
  length es = length rs ->
  sum_errors norm_2 norm_2_sq rs es =
  Totals
    (fsum (zip_with (fun r e => norm_2_sq (csub e r)) rs es))
    (fsum (map norm_2_sq es))
    (fsum (ratios norm_2 rs es))
    (fold_left std_max (ratios norm_2 rs es) 0).
Proof. intros H. unfold sum_errors. rewrite sum_errors_from by exact H. reflexivity. Qed.

Lemma ratio_in (rs : list result_type) :
  forall (es : list result_type) (k : nat),
  length es = length rs -> (k < length rs)%nat ->
  In (rel_error norm_2 (nth k rs Butterfly.czero) (nth k es Butterfly.czero))
     (ratios norm_2 rs es).
Proof.
  induction rs as [|r rs IH]; intros es k Hlen Hk; destruct es as [|e es];
    try discriminate Hlen; cbn [length] in Hk; [lia|].
  injection Hlen as Hlen. destruct k as [|k]; cbn [nth].
  - left. reflexivity.
  - right. apply IH; [exact Hlen | lia].
Qed.

Lemma ratios_nonempty (rs es : list result_type) :
  length es = length rs -> rs <> [] -> ratios norm_2 rs es <> [].
Proof.
  destruct rs as [|r rs], es as [|e es]; cbn; intros; congruence.
Qed.

End Norms.

(** ** The claims about the error analysis *)

(** C7, as amended.  A target whose [exact_k] has zero norm goes through
    the loop like any other.  Its relative error is the quotient of the
    error norm by zero: NaN when the error norm is zero or NaN, an infinity
    otherwise.  That quotient is added to the sum of the average and
    offered to the running maximum; a NaN leaves the maximum as it was and
    turns the sum into NaN, and with it the average of the whole run. *)
Theorem zero_norm_exact (norm_2 norm_2_sq : complex float -> float)
    (a : totals) (r e : result_type) :
  is_zero (norm_2 e) = true ->
  let q := rel_error norm_2 r e in
  let a' := accumulate_one norm_2 norm_2_sq a r e in
  (is_nan (norm_2 (csub e r)) = true \/ is_zero (norm_2 (csub e r)) = true ->
   is_nan q = true) /\
  (is_nan (norm_2 (csub e r)) = false -> is_zero (norm_2 (csub e r)) = false ->
   is_infinity q = true) /\
  tot_ind_rel_err a' = tot_ind_rel_err a + q /\
  max_ind_rel_err a' = std_max (max_ind_rel_err a) q /\
  (is_nan q = true ->
   is_nan (tot_ind_rel_err a') = true /\
   max_ind_rel_err a' = max_ind_rel_err a /\
   forall result exact k,
     length exact = length result -> (k < length result)%nat ->
     nth k result Butterfly.czero = r -> nth k exact Butterfly.czero = e ->
     is_nan (ave_rel_err (analyse norm_2 norm_2_sq result exact)) = true).
Proof.
  intros Hz q a'.
  destruct (div_by_zero (norm_2 (csub e r)) (norm_2 e) Hz) as [Hnan Hinf].
  split; [exact Hnan|]. split; [exact Hinf|].
  split; [reflexivity|]. split; [reflexivity|].
  intros Hq. split; [|split].
  - apply add_nan_r. exact Hq.
  - apply std_max_nan. exact Hq.
  - intros result exact k Hlen Hk Hr He.
    unfold analyse. cbn [ave_rel_err].
    rewrite (sum_errors_spec norm_2 norm_2_sq result exact Hlen).
    cbn [tot_ind_rel_err]. apply div_nan_l. unfold fsum.
    apply (sum_nan_term _ q); [|exact Hq].
    unfold q. rewrite <- Hr, <- He. apply ratio_in; assumption.
Qed.

Lemma zero_norm_exact_witness :
  is_nan (rel_error modulus (Complex 0 0) (Complex 0 0)) = true /\
  is_infinity (rel_error modulus (Complex 1 0) (Complex 0 0)) = true.
Proof.
  split.
  - destruct (zero_norm_exact modulus modulus_sq zero_totals (Complex 0 0) (Complex 0 0))
      as (Hnan & _).
    + vm_compute. reflexivity.
    + apply Hnan. right. vm_compute. reflexivity.
  - destruct (zero_norm_exact modulus modulus_sq zero_totals (Complex 1 0) (Complex 0 0))
      as (_ & Hinf & _).
    + vm_compute. reflexivity.
    + apply Hinf; vm_compute; reflexivity.
Defined.

(** C7, as the claim has it, fails on one target with [exact] and [result]
    both zero: the relative error is NaN, not 0, and the sum of the average
    is NaN. *)
Lemma zero_norm_not_guarded :
  ~ zero_norm_guarded modulus modulus_sq [Complex 0 0] [Complex 0 0].
Proof.
  intros H. destruct (H 0%nat) as (H0 & _).
  - cbn. lia.
  - vm_compute. reflexivity.
  - assert (Hq : is_zero (rel_error modulus (Complex 0 0) (Complex 0 0)) = false)
      by (vm_compute; reflexivity).
    cbn [nth] in H0. rewrite H0 in Hq; [discriminate Hq|].
    vm_compute. reflexivity.
Qed.

(** With [exact] zero and [result] one, all three figures are infinite. *)
Example zero_exact_nonzero_result :
  analyse modulus modulus_sq [Complex 1 0] [Complex 0 0] =
  Report infinity infinity infinity.
Proof. vm_compute. reflexivity. Qed.

End ErrorAnalysisFacts.

(** * Further facts about the sweep *)

Module PassesFacts.
Import Butterfly Passes ButterflyFacts.
Local Open Scope Z_scope.

(** ** The running indices *)

Lemma target_loop_indexed (mL Ls L s : Z) (src tgt : NDTree) (sb : box) :
  0 <= s -> boxes (mL - L) src !! Z.to_nat s = Some sb ->
  forall (tbs done : list box) (t : Z) (st : state),
  boxes L tgt = done ++ tbs -> t + 1 = Z.of_nat (length done) ->
  Forall (well_indexed mL src tgt) (visits st) ->
  Forall (well_indexed mL src tgt)
         (visits (snd (fold_left (target_step mL Ls L s sb) tbs (t, st)))).
Proof.
  intros Hs Hsb. induction tbs as [|tb tbs IH]; intros done t st Hsplit Ht Hall.
  - exact Hall.
  - cbn [fold_left]. unfold target_step at 2. cbn [fst snd].
    pose proof (select_state mL Ls L sb tb st) as Hst.
    destruct (select mL Ls L sb tb st) as [st1 ops]. cbn in Hst. subst st1.
    apply (IH (done ++ [tb]) (t + 1)).
    + rewrite Hsplit, <- app_assoc. reflexivity.
    + rewrite length_app. cbn [length]. lia.
    + unfold note. cbn [visits]. apply Forall_app. split; [exact Hall|].
      constructor; [|constructor].
      unfold well_indexed. cbn [v_L v_s_idx v_t_idx v_sbox v_tbox].
      repeat split; try assumption; try lia.
      rewrite Hsplit. apply list_lookup_middle. lia.
Qed.

Lemma source_loop_indexed (mL Ls L : Z) (src tgt : NDTree) :
  forall (sbs done : list box) (s : Z) (st : state),
  boxes (mL - L) src = done ++ sbs -> s + 1 = Z.of_nat (length done) ->
  Forall (well_indexed mL src tgt) (visits st) ->
  Forall (well_indexed mL src tgt)
         (visits (snd (fold_left (source_step mL Ls L tgt) sbs (s, st)))).
Proof.
  induction sbs as [|sb sbs IH]; intros done s st Hsplit Hs Hall.
  - exact Hall.
  - cbn [fold_left]. unfold source_step at 2. cbn [fst snd].
    apply (IH (done ++ [sb]) (s + 1)).
    + rewrite Hsplit, <- app_assoc. reflexivity.
    + rewrite length_app. cbn [length]. lia.
    + apply (target_loop_indexed mL Ls L (s + 1) src tgt sb) with (done := []).
      * lia.
      * rewrite Hsplit. apply list_lookup_middle. lia.
      * reflexivity.
      * reflexivity.
      * exact Hall.
Qed.

Lemma sweep_indexed (mL Ls : Z) (src tgt : NDTree) (st : state) :
  Forall (well_indexed mL src tgt) (visits st) ->
  Forall (well_indexed mL src tgt) (visits (sweep mL Ls src tgt st)).
Proof.
  unfold sweep.
  apply (fold_left_invariant (level_step mL Ls src tgt)
           (fun s => Forall (well_indexed mL src tgt) (visits s))).
  intros a L Ha. unfold level_step.
  apply (source_loop_indexed mL Ls L src tgt) with (done := []);
    [reflexivity | reflexivity | exact Ha].
Qed.

(** ** Where the passes are made *)

Lemma L_split_bounds (m l : Z) : 0 <= l < L_split m -> 2 * l + 2 <= m.
Proof.
  unfold L_split. intros H.
  assert (Hm : 0 <= m).
  { destruct (Z.le_gt_cases 0 m) as [|Hneg]; [assumption|].
    assert (Z.quot m 2 <= 0) by (apply Z.quot_le_upper_bound; lia). lia. }
  pose proof (Z.quot_rem' m 2) as Hqr.
  pose proof (Z.rem_bound_pos m 2 Hm ltac:(lia)) as Hr.
  lia.
Qed.

Lemma pass_places (src tgt : NDTree) (M : nat) (v : visit) :
  In v (visits (final (butterfly src tgt M))) ->
  0 <= v_L v < L_split (max_L src tgt) /\
  In (v_sbox v) (boxes (max_L src tgt - v_L v) src) /\
  In (v_tbox v) (boxes (v_L v) tgt).
Proof.
  intros Hv. destruct (butterfly_passes src tgt M) as (_ & Htr & _).
  apply (in_map triple) in Hv. rewrite Htr in Hv.
  apply in_flat_map in Hv as (L & HL & Hin).
  apply list_elem_of_In, elem_of_seqZ in HL.
  unfold cross in Hin. apply in_map_iff in Hin as ([sb tb] & Hp & Hprod).
  unfold triple in Hp. cbn [fst snd] in Hp. injection Hp as <- <- <-.
  apply in_prod_iff in Hprod. split; [lia | exact Hprod].
Qed.

Lemma sweep_indexed_run (src tgt : NDTree) (M : nat) :
  Forall (well_indexed (max_L src tgt) src tgt)
         (visits (final (butterfly src tgt M))).
Proof.
  destruct (sized_frame src tgt M) as [_ Hv].
  unfold butterfly.
  destruct (L_split (max_L src tgt) >? 0); cbn [final].
  - apply sweep_indexed. rewrite Hv. constructor.
  - rewrite Hv. constructor.
Qed.

(** X1.  On every pass of the sweep the two running indices are the
    positions of the source box and of the target box in the levels the
    loops range over: they start at 0 and name the box at hand. *)
Theorem passes_well_indexed (src tgt : NDTree) (M : nat) :
  Forall (well_indexed (max_L src tgt) src tgt)
         (visits (final (butterfly src tgt M))).
Proof. apply sweep_indexed_run. Qed.

(** X2.  Every pass is made below the split level, at a source level and a
    target level that both trees have, on boxes of these levels; the source
    level lies at least two levels deeper than the target level. *)
Theorem passes_in_range (src tgt : NDTree) (M : nat) :
  let mL := max_L src tgt in
  Forall (fun v =>
            0 <= v_L v < L_split mL /\
            v_L v + 2 <= mL - v_L v < levels src /\
            v_L v < levels tgt /\
            In (v_sbox v) (boxes (mL - v_L v) src) /\
            In (v_tbox v) (boxes (v_L v) tgt))
         (visits (final (butterfly src tgt M))).
Proof.
  intros mL. apply List.Forall_forall. intros v Hv.
  destruct (pass_places src tgt M v Hv) as (HL & Hs & Ht).
  fold mL in HL, Hs.
  pose proof (L_split_bounds mL (v_L v) HL) as Hb.
  destruct (max_L_below_levels src tgt) as [H1 H2]. fold mL in H1, H2.
  repeat split; try assumption; lia.
Qed.

(** X3.  Every pass enters exactly two branches: S2M at level 0 or on a
    leaf source box and M2M otherwise, then L2T on a leaf target box and
    M2T otherwise.  The branches of S2L, M2L and L2L are entered on no
    pass, and L2T on no target box that is not a leaf. *)
Theorem passes_below_split (src tgt : NDTree) (M : nat) :
  Forall (fun v => v_ops v = below_split (v_L v) (v_sbox v) (v_tbox v))
         (visits (final (butterfly src tgt M))).
Proof.
  apply List.Forall_forall. intros v Hv.
  destruct (pass_places src tgt M v Hv) as (HL & _).
  pose proof (L_split_bounds _ _ HL) as Hb.
  destruct (butterfly_passes src tgt M) as (_ & _ & Hob).
  rewrite List.Forall_forall in Hob. specialize (Hob v Hv).
  unfold obeys in Hob. rewrite Hob, entered_rules.
  unfold source_rule, target_rule, below_split.
  destruct (Z.eqb_spec (v_L v) (L_split (max_L src tgt))) as [|_]; [lia|].
  destruct (Z.ltb_spec (v_L v) (L_split (max_L src tgt))) as [_|]; [|lia].
  destruct (Z.eqb_spec (v_L v) (max_L src tgt)) as [|_]; [lia|].
  destruct (Z.gtb_spec (v_L v) (L_split (max_L src tgt))) as [|_]; [lia|].
  cbn [orb app].
  destruct ((v_L v =? 0) || is_leaf (v_sbox v)), (is_leaf (v_tbox v)); reflexivity.
Qed.

(** X4.  The sweep makes as many passes as there are pairs of a source box
    of level [max_L - L] and a target box of level [L], over the levels [L]
    below the split level; none when the assertion fails. *)
Theorem passes_counted (src tgt : NDTree) (M : nat) :
  let mL := max_L src tgt in
  length (visits (final (butterfly src tgt M))) = pass_count mL (L_split mL) src tgt /\
  (mL < 2 -> visits (final (butterfly src tgt M)) = []).
Proof.
  intros mL. destruct (butterfly_passes src tgt M) as (_ & Htr & _). fold mL in Htr.
  assert (Hlen : length (visits (final (butterfly src tgt M)))
                 = pass_count mL (L_split mL) src tgt).
  { rewrite <- (length_map triple), Htr, length_flat_map. unfold pass_count.
    f_equal. apply map_ext. intros L. unfold cross, tree_boxes.
    rewrite length_map, length_prod. reflexivity. }
  split; [exact Hlen|].
  intros Hsmall. apply L_split_small in Hsmall.
  apply length_zero_iff_nil. rewrite Hlen. unfold pass_count.
  rewrite seqZ_nil by lia. reflexivity.
Qed.

(** ** The slots the passes address *)

(** X5.  For trees with distinct boxes, the cell [multipole[sbox][t_idx]]
    and the cell [local[tbox][s_idx]] exist on every pass, in the state the
    run ends in as in the state the sweep started from: the sizing loop has
    given each slot enough cells for the indices the sweep runs through,
    and each such cell holds an empty vector. *)
Theorem passes_address_sized_cells (src tgt : NDTree) (M : nat) :
  distinct_boxes src -> distinct_boxes tgt ->
  let st := final (butterfly src tgt M) in
  Forall (fun v =>
            (multipole st !!! index (v_sbox v)) !! Z.to_nat (v_t_idx v) = Some [] /\
            (local st !!! index (v_tbox v)) !! Z.to_nat (v_s_idx v) = Some [])
         (visits st).
Proof.
  intros Hs Ht st. apply List.Forall_forall. intros v Hv.
  destruct (pass_places src tgt M v Hv) as (HL & Hsb & Htb).
  pose proof (L_split_bounds _ _ HL) as Hb.
  pose proof (sweep_indexed_run src tgt M) as Hidx.
  rewrite List.Forall_forall in Hidx.
  destruct (Hidx v Hv) as (_ & Hsi & _ & Hti).
  destruct (butterfly_passes src tgt M) as ((_ & Hm & Hl & _) & _).
  unfold st. rewrite Hm, Hl. unfold sized.
  assert (Hrange : 0 <= v_L v <= max_L src tgt) by lia.
  apply list_elem_of_In in Hsb, Htb.
  pose proof (initialize_multipole _ src tgt (initial M) (v_L v) (v_sbox v)
                Hs Hrange Hsb) as Em.
  pose proof (initialize_local _ src tgt (initial M) (v_L v) (v_tbox v)
                Ht Hrange Htb) as El.
  cbn [initial multipole local] in Em, El.
  rewrite lookup_total_empty in Em, El.
  change (inhabitant : multipole_type) with (@nil (list charge_type)) in Em.
  change (inhabitant : local_type) with (@nil (list result_type)) in El.
  rewrite resize_nil in Em, El.
  unfold multipole_type, local_type, charge_type, result_type in *.
  rewrite Em, El. split; apply lookup_replicate_2.
  - apply lookup_lt_Some in Hti. exact Hti.
  - apply lookup_lt_Some in Hsi. exact Hsi.
Qed.

(** X6.  The sizing loop and the sweep touch the slots of the boxes of the
    levels 0 to [max_L] and no other: a key that belongs to no box of
    these levels reads as the empty vector at the end of the run, in
    [multipole] and in [local] alike; for trees with distinct boxes this
    holds of every box of a level deeper than [max_L]. *)
Theorem deeper_slots_untouched (src tgt : NDTree) (M : nat) :
  let mL := max_L src tgt in
  let st := final (butterfly src tgt M) in
  (forall k, (forall L b, 0 <= L <= mL -> In b (boxes L src) -> index b <> k) ->
             multipole st !!! k = []) /\
  (forall k, (forall L b, 0 <= L <= mL -> In b (boxes L tgt) -> index b <> k) ->
             local st !!! k = []) /\
  (distinct_boxes src -> forall L b, mL < L -> In b (boxes L src) ->
             multipole st !!! index b = []) /\
  (distinct_boxes tgt -> forall L b, mL < L -> In b (boxes L tgt) ->
             local st !!! index b = []).
Proof.
  intros mL st.
  destruct (butterfly_passes src tgt M) as ((_ & Hm & Hl & _) & _).
  assert (Hmul : forall k,
            (forall L b, 0 <= L <= mL -> In b (boxes L src) -> index b <> k) ->
            multipole st !!! k = []).
  { intros k Hk. unfold st. rewrite Hm. unfold sized, initialize. fold mL.
    rewrite (slots_untouched multipole (initialize_level mL src tgt)
               (fun L => boxes (mL - L) src) (tree_boxes tgt)).
    - reflexivity.
    - intros. apply initialize_level_multipole.
    - intros L HL Hin. apply elem_of_seqZ in HL.
      apply list_elem_of_fmap in Hin as (b & Heq & Hb).
      apply (Hk (mL - L) b); [lia | apply list_elem_of_In; exact Hb | auto]. }
  assert (Hloc : forall k,
            (forall L b, 0 <= L <= mL -> In b (boxes L tgt) -> index b <> k) ->
            local st !!! k = []).
  { intros k Hk. unfold st. rewrite Hl. unfold sized, initialize. fold mL.
    rewrite (slots_untouched local (initialize_level mL src tgt)
               (fun L => boxes L tgt) (fun L => tree_boxes src (mL - L))).
    - reflexivity.
    - intros. apply initialize_level_local.
    - intros L HL Hin. apply elem_of_seqZ in HL.
      apply list_elem_of_fmap in Hin as (b & Heq & Hb).
      apply (Hk L b); [lia | apply list_elem_of_In; exact Hb | auto]. }
  split; [exact Hmul|]. split; [exact Hloc|]. split.
  - intros Hd L b HL Hb. apply Hmul. intros L' b' HL' Hb'.
    apply (distinct_boxes_apart src L' L b' b Hd); [lia | |];
      apply list_elem_of_In; assumption.
  - intros Hd L b HL Hb. apply Hloc. intros L' b' HL' Hb'.
    apply (distinct_boxes_apart tgt L' L b' b Hd); [lia | |];
      apply list_elem_of_In; assumption.
Qed.

Lemma deeper_slots_untouched_witness :
  multipole (final (butterfly tree3 tree2 4)) !!! index (Box 3 true) = [].
Proof.
  destruct (deeper_slots_untouched tree3 tree2 4) as (_ & _ & Hm & _).
  apply (Hm tree3_distinct 2).
  - vm_compute. reflexivity.
  - vm_compute. auto.
Defined.

Lemma passes_address_sized_cells_witness :
  Forall (fun v =>
            (multipole (final (butterfly tree3 tree3 4)) !!! index (v_sbox v))
              !! Z.to_nat (v_t_idx v) = Some [] /\
            (local (final (butterfly tree3 tree3 4)) !!! index (v_tbox v))
              !! Z.to_nat (v_s_idx v) = Some [])
         (visits (final (butterfly tree3 tree3 4))).
Proof.
  apply (passes_address_sized_cells tree3 tree3 4 tree3_distinct tree3_distinct).
Defined.

Lemma passes_counted_witness :
  length (visits (final (butterfly tree3 tree3 4))) = 4%nat /\
  visits (final (butterfly tree2 tree3 4)) = [].
Proof.
  split.
  - rewrite (proj1 (passes_counted tree3 tree3 4)). reflexivity.
  - apply (proj2 (passes_counted tree2 tree3 4)). vm_compute. reflexivity.
Defined.

End PassesFacts.

(** * Further facts about [main] *)

Module DriverFacts.
Import Butterfly ErrorAnalysis ButterflyFacts Driver.
Local Open Scope Z_scope.

(** X7.  When [max_L] is at least 2 the assertion holds, the sweep runs
    and [main] returns 0.  It carries the three figures exactly when the
    check was asked for, and these are the figures of a result vector of
    [M] zeros: nothing of the sweep reaches them. *)
Theorem main_returns (norm_2 norm_2_sq : complex float -> float)
    (src tgt : NDTree) (M : nat) (exact : list result_type) (checkErrors : bool) :
  2 <= max_L src tgt ->
  exists st,
    butterfly src tgt M = Swept st /\
    main norm_2 norm_2_sq src tgt M exact checkErrors =
      Return0 st (if checkErrors
                  then Some (analyse norm_2 norm_2_sq (repeat czero M) exact)
                  else None).
Proof.
  intros Hbig.
  assert (Hs : L_split (max_L src tgt) > 0).
  { destruct (Z.le_gt_cases (L_split (max_L src tgt)) 0) as [Hle|]; [|lia].
    apply L_split_small in Hle. lia. }
  set (st := sweep (max_L src tgt) (L_split (max_L src tgt)) src tgt (sized src tgt M)).
  assert (Hb : butterfly src tgt M = Swept st).
  { unfold butterfly, st.
    destruct (Z.gtb_spec (L_split (max_L src tgt)) 0); [reflexivity | lia]. }
  exists st. split; [exact Hb|].
  unfold main. rewrite Hb.
  destruct (butterfly_passes src tgt M) as ((Hr & _) & _).
  rewrite Hb in Hr. cbn [final] in Hr.
  destruct (sized_frame src tgt M) as [Hz _]. rewrite Hz in Hr.
  rewrite Hr. reflexivity.
Qed.

Lemma main_returns_witness :
  exists st,
    main modulus modulus_sq tree3 tree3 1 [Complex 3%float 4%float] true =
    Return0 st (Some (Report 1%float 1%float 1%float)).
Proof.
  destruct (main_returns modulus modulus_sq tree3 tree3 1 [Complex 3%float 4%float] true)
    as (st & _ & Hmain).
  - vm_compute. discriminate.
  - exists st. rewrite Hmain. reflexivity.
Defined.

End DriverFacts.

(** * Further facts about the error analysis *)

Module ErrorAnalysisMore.
Import ErrorAnalysis FloatOrder FloatOrderFacts ErrorAnalysisFacts ButterflyFacts.
Local Open Scope float_scope.

Lemma not_nan_number (x : float) : is_nan x = false -> number x.
Proof.
  unfold is_nan. rewrite negb_false_iff. intros H.
  apply eqb_true_iff in H. tauto.
Qed.

(** Subtracting zero changes nothing, whatever the number. *)
Lemma sub_zero_r (x : float) : x - 0 = x.
Proof.
  assert (H : Prim2SF (x - 0) = Prim2SF x).
  { rewrite FloatAxioms.sub_spec.
    change (Prim2SF 0) with (S754_zero false).
    destruct (Prim2SF x) as [[]|s| |s m e]; reflexivity. }
  rewrite <- (FloatAxioms.SF2Prim_Prim2SF (x - 0)), H.
  apply FloatAxioms.SF2Prim_Prim2SF.
Qed.

Lemma csub_zero_r (e : complex float) : csub e Butterfly.czero = e.
Proof. destruct e as [a b]. unfold csub. cbn. rewrite !sub_zero_r. reflexivity. Qed.

(** ** The running maximum on any input *)

Lemma std_max_keeps_sign (m q : float) :
  (0 <=? m) = true -> (0 <=? std_max m q) = true.
Proof.
  intros Hm. unfold std_max. destruct (m <? q) eqn:E; [|exact Hm].
  apply (leb_trans 0 m q); [exact Hm | apply ltb_leb; exact E].
Qed.

Lemma std_max_fold_any (xs : list float) :
  forall m, number m ->
  (m <=? fold_left std_max xs m) = true /\
  Forall (fun x => is_nan x = true \/ (x <=? fold_left std_max xs m) = true) xs.
Proof.
  induction xs as [|x xs IH]; intros m Hm.
  - cbn. split; [apply leb_refl; exact Hm | constructor].
  - cbn [fold_left]. destruct (m <? x) eqn:E.
    + assert (Hs : std_max m x = x) by (unfold std_max; rewrite E; reflexivity).
      rewrite Hs.
      assert (Hx : number x) by (apply ltb_true_iff in E; tauto).
      destruct (IH x Hx) as (Hle & Hall). split.
      * apply (leb_trans m x); [apply ltb_leb; exact E | exact Hle].
      * constructor; [right; exact Hle | exact Hall].
    + assert (Hs : std_max m x = m) by (unfold std_max; rewrite E; reflexivity).
      rewrite Hs. destruct (IH m Hm) as (Hle & Hall). split; [exact Hle|].
      constructor; [|exact Hall].
      destruct (is_nan x) eqn:En; [left; reflexivity|right].
      apply (leb_trans x m); [|exact Hle].
      apply ltb_false_leb; [exact Hm | apply not_nan_number; exact En | exact E].
Qed.

(** X8.  Whatever [result] and [exact] hold, NaN and infinities included,
    the maximum figure is a number that is not negative: it starts at 0 and
    is replaced only by a ratio that exceeds it, which a NaN never does. *)
Theorem maximum_never_nan (norm_2 norm_2_sq : complex float -> float)
    (result exact : list result_type) :
  (0 <=? max_rel_err (analyse norm_2 norm_2_sq result exact)) = true /\
  is_nan (max_rel_err (analyse norm_2 norm_2_sq result exact)) = false.
Proof.
  assert (H : (0 <=? max_rel_err (analyse norm_2 norm_2_sq result exact)) = true).
  { unfold analyse, sum_errors. cbn [max_rel_err].
    apply (fold_left_invariant (accumulate norm_2 norm_2_sq result exact)
             (fun a => (0 <=? max_ind_rel_err a) = true)).
    - intros a k Ha. unfold accumulate, accumulate_one. cbn [max_ind_rel_err].
      apply std_max_keeps_sign. exact Ha.
    - reflexivity. }
  split; [exact H|].
  destruct (is_nan _) eqn:E; [|reflexivity].
  apply is_nan_iff in E. destruct E. eapply leb_number_r. exact H.
Qed.

(** X9.  For [result] and [exact] of one length, every per-target ratio
    that is not NaN is at most the maximum figure, whatever the other
    ratios are. *)
Theorem maximum_bounds_ratios (norm_2 norm_2_sq : complex float -> float)
    (result exact : list result_type) :
  length exact = length result ->
  Forall (fun q => is_nan q = true \/
                   (q <=? max_rel_err (analyse norm_2 norm_2_sq result exact)) = true)
         (ratios norm_2 result exact).
Proof.
  intros Hlen. unfold analyse. cbn [max_rel_err].
  rewrite (sum_errors_spec norm_2 norm_2_sq result exact Hlen).
  cbn [max_ind_rel_err]. apply std_max_fold_any, zero_number.
Qed.

Lemma maximum_bounds_ratios_witness :
  Forall (fun q => is_nan q = true \/
                   (q <=? max_rel_err (analyse modulus modulus_sq
                                         [Complex 0 0; Complex 1 0]
                                         [Complex 0 0; Complex 2 0])) = true)
         (ratios modulus [Complex 0 0; Complex 1 0] [Complex 0 0; Complex 2 0]).
Proof.
  apply (maximum_bounds_ratios modulus modulus_sq
           [Complex 0 0; Complex 1 0] [Complex 0 0; Complex 2 0]).
  reflexivity.
Defined.

(** X10.  With no target, whatever [exact] holds, the aggregate and the
    average figure are NaN, the quotient of zero by zero, and the maximum
    figure is 0. *)
Theorem no_target_figures (norm_2 norm_2_sq : complex float -> float)
    (exact : list result_type) :
  analyse norm_2 norm_2_sq [] exact = Report nan nan 0.
Proof. reflexivity. Qed.

Lemma ratios_of_zero_result (norm_2 : complex float -> float)
    (exact : list result_type) :
  ratios norm_2 (repeat Butterfly.czero (length exact)) exact
  = map (fun e => norm_2 e / norm_2 e) exact.
Proof.
  unfold ratios, rel_error. induction exact as [|e es IH]; [reflexivity|].
  cbn [length repeat zip_with map]. rewrite csub_zero_r, IH. reflexivity.
Qed.

Lemma errors_of_zero_result (norm_2_sq : complex float -> float)
    (exact : list result_type) :
  zip_with (fun r e => norm_2_sq (csub e r))
           (repeat Butterfly.czero (length exact)) exact
  = map norm_2_sq exact.
Proof.
  induction exact as [|e es IH]; [reflexivity|].
  cbn [length repeat zip_with map]. rewrite csub_zero_r, IH. reflexivity.
Qed.

(** X11.  Against a result vector of zeros, which is what [main] hands
    over, the error of every target is [exact_k] itself: the two sums of
    the aggregate figure are one and the same sum of the squared norms of
    [exact], and every per-target ratio is the quotient of the norm of
    [exact_k] by itself. *)
Theorem figures_of_zero_result (norm_2 norm_2_sq : complex float -> float)
    (exact : list result_type) :
  let rep := analyse norm_2 norm_2_sq (repeat Butterfly.czero (length exact)) exact in
  let S := fsum (map norm_2_sq exact) in
  ratios norm_2 (repeat Butterfly.czero (length exact)) exact
    = map (fun e => norm_2 e / norm_2 e) exact /\
  tot_rel_err rep = sqrt (S / S) /\
  ave_rel_err rep
    = fsum (map (fun e => norm_2 e / norm_2 e) exact) / of_size (length exact).
Proof.
  intros rep S. split; [apply ratios_of_zero_result|].
  unfold rep, S, analyse.
  rewrite (sum_errors_spec norm_2 norm_2_sq) by (rewrite repeat_length; reflexivity).
  cbn [tot_rel_err ave_rel_err tot_error_sq tot_norm_sq tot_ind_rel_err].
  rewrite errors_of_zero_result, ratios_of_zero_result, repeat_length.
  split; reflexivity.
Qed.

End ErrorAnalysisMore.

(** * Facts about the command line *)

Module CommandLineFacts.
Import CommandLine.
Local Open Scope Z_scope.

Lemma same_true (a b : string) : same a b = true <-> a = b.
Proof. unfold same. apply String.eqb_eq. Qed.

Lemma same_false (a b : string) : same a b = false <-> a <> b.
Proof. unfold same. apply String.eqb_neq. Qed.

Lemma is_option_false (a : string) :
  is_option a = false <-> a <> "-N" /\ a <> "-M" /\ a <> "-nocheck".
Proof.
  unfold is_option. rewrite !orb_false_iff, !same_false. tauto.
Qed.

Section Atoi.
Variable atoi : string -> Z.

(** The cases of the loop: how [parse] goes through its arguments. *)
Lemma parse_cases (P : list string -> options -> Prop) :
  (forall o, P [] o) ->
  (forall o, P ["-N"] o) ->
  (forall o, P ["-M"] o) ->
  (forall v rest o, P rest (set_N o (atoi v)) -> P ("-N" :: v :: rest) o) ->
  (forall v rest o, P rest (set_M o (atoi v)) -> P ("-M" :: v :: rest) o) ->
  (forall rest o, P rest (set_nocheck o) -> P ("-nocheck" :: rest) o) ->
  (forall a rest o, is_option a = false -> P rest o -> P (a :: rest) o) ->
  forall args o, P args o.
Proof.
  intros Hnil HN0 HM0 HN HM Hno Hother args.
  assert (H : forall n args o, (length args <= n)%nat -> P args o).
  { induction n as [|n IH]; intros [|a rest] o Hlen; cbn [length] in Hlen;
      try apply Hnil; try lia.
    destruct (same a "-N") eqn:EN.
    { apply same_true in EN. subst a. destruct rest as [|v rest]; [apply HN0|].
      apply HN, IH. cbn [length] in Hlen. lia. }
    destruct (same a "-M") eqn:EM.
    { apply same_true in EM. subst a. destruct rest as [|v rest]; [apply HM0|].
      apply HM, IH. cbn [length] in Hlen. lia. }
    destruct (same a "-nocheck") eqn:Eno.
    { apply same_true in Eno. subst a. apply Hno, IH. lia. }
    apply Hother; [|apply IH; lia].
    unfold is_option. rewrite EN, EM, Eno. reflexivity. }
  intros o. apply (H (length args)). lia.
Qed.

Lemma parse_other (a : string) (rest : list string) (o : options) :
  is_option a = false -> parse atoi (a :: rest) o = parse atoi rest o.
Proof.
  unfold is_option. rewrite !orb_false_iff. intros [[H1 H2] H3].
  cbn [parse]. rewrite H1, H2, H3. reflexivity.
Qed.

(** X14.  Arguments that are none of [-N], [-M] and [-nocheck] are passed
    over: a command line made of such arguments only leaves the settings at
    their defaults, 1000 sources, 1000 targets and the check on. *)
Theorem other_arguments_ignored (prog : string) (args : list string) :
  (forall a, In a args -> is_option a = false) ->
  (forall o, parse atoi args o = Some o) /\
  parse_args atoi (prog :: args) = Some (Options 1000 1000 true).
Proof.
  intros Hargs.
  assert (H : forall o, parse atoi args o = Some o).
  { induction args as [|a rest IH]; intros o; [reflexivity|].
    rewrite parse_other by (apply Hargs; left; reflexivity).
    apply IH. intros b Hb. apply Hargs. right. exact Hb. }
  split; [exact H|]. unfold parse_args. cbn [tail]. apply H.
Qed.

(** X15.  An option that occurs nowhere among the arguments leaves its
    setting as it was: without [-N] the number of sources, without [-M]
    the number of targets, without [-nocheck] the check. *)
Theorem absent_option_keeps_setting (args : list string) (o o' : options) :
  parse atoi args o = Some o' ->
  (~ In "-N" args -> N o' = N o) /\
  (~ In "-M" args -> M o' = M o) /\
  (~ In "-nocheck" args -> checkErrors o' = checkErrors o).
Proof.
  revert o'. revert args o.
  apply (parse_cases (fun args o => forall o', parse atoi args o = Some o' ->
           (~ In "-N" args -> N o' = N o) /\
           (~ In "-M" args -> M o' = M o) /\
           (~ In "-nocheck" args -> checkErrors o' = checkErrors o))).
  - intros o o' H. injection H as <-. auto.
  - intros o o' H. discriminate H.
  - intros o o' H. discriminate H.
  - intros v rest o IH o' H. change (parse atoi rest (set_N o (atoi v)) = Some o') in H.
    destruct (IH o' H) as (_ & HM & Hc). repeat split.
    + intros Hn. exfalso. apply Hn. left. reflexivity.
    + intros Hn. apply HM. intros Hin. apply Hn. right. right. exact Hin.
    + intros Hn. apply Hc. intros Hin. apply Hn. right. right. exact Hin.
  - intros v rest o IH o' H. change (parse atoi rest (set_M o (atoi v)) = Some o') in H.
    destruct (IH o' H) as (HN & _ & Hc). repeat split.
    + intros Hn. apply HN. intros Hin. apply Hn. right. right. exact Hin.
    + intros Hn. exfalso. apply Hn. left. reflexivity.
    + intros Hn. apply Hc. intros Hin. apply Hn. right. right. exact Hin.
  - intros rest o IH o' H. change (parse atoi rest (set_nocheck o) = Some o') in H.
    destruct (IH o' H) as (HN & HM & _). repeat split.
    + intros Hn. apply HN. intros Hin. apply Hn. right. exact Hin.
    + intros Hn. apply HM. intros Hin. apply Hn. right. exact Hin.
    + intros Hn. exfalso. apply Hn. left. reflexivity.
  - intros a rest o Ha IH o' H. rewrite parse_other in H by exact Ha.
    destruct (IH o' H) as (HN & HM & Hc). repeat split; intros Hn.
    + apply HN. intros Hin. apply Hn. right. exact Hin.
    + apply HM. intros Hin. apply Hn. right. exact Hin.
    + apply Hc. intros Hin. apply Hn. right. exact Hin.
Qed.

(** X16.  Where the reading of some arguments comes to an end, the
    arguments that follow are read from the settings reached; so a [-N] or
    a [-M] that comes last, with no argument after it, makes the loop read
    past the arguments, and the outcome is not defined. *)
Theorem option_without_value (l : list string) (o o' : options) :
  parse atoi l o = Some o' ->
  (forall l', parse atoi (l ++ l') o = parse atoi l' o') /\
  parse atoi (l ++ ["-N"]) o = None /\
  parse atoi (l ++ ["-M"]) o = None.
Proof.
  intros H.
  assert (Happ : forall l', parse atoi (l ++ l') o = parse atoi l' o').
  { revert o' H. revert l o.
    apply (parse_cases (fun l o => forall o', parse atoi l o = Some o' ->
             forall l', parse atoi (l ++ l') o = parse atoi l' o')).
    - intros o o' H l'. injection H as <-. reflexivity.
    - intros o o' H. discriminate H.
    - intros o o' H. discriminate H.
    - intros v rest o IH o' H l'. exact (IH o' H l').
    - intros v rest o IH o' H l'. exact (IH o' H l').
    - intros rest o IH o' H l'. exact (IH o' H l').
    - intros a rest o Ha IH o' H l'. rewrite parse_other in H by exact Ha.
      cbn [app]. rewrite parse_other by exact Ha. exact (IH o' H l'). }
  split; [exact Happ|]. rewrite !Happ. split; reflexivity.
Qed.

(** X17.  Nothing switches the check on again: reading the same arguments
    with the check already off ends in the same numbers of sources and
    targets and the check off.  So a [-nocheck] read as an option takes
    effect wherever it stands. *)
Theorem nocheck_stays (args : list string) (o o' : options) :
  parse atoi args o = Some o' ->
  parse atoi args (set_nocheck o) = Some (set_nocheck o') /\
  parse atoi ("-nocheck" :: args) o = Some (set_nocheck o') /\
  (checkErrors o = false -> checkErrors o' = false).
Proof.
  intros H.
  assert (Hoff : parse atoi args (set_nocheck o) = Some (set_nocheck o')).
  { revert o' H. revert args o.
    apply (parse_cases (fun args o => forall o', parse atoi args o = Some o' ->
             parse atoi args (set_nocheck o) = Some (set_nocheck o'))).
    - intros o o' H. injection H as <-. reflexivity.
    - intros o o' H. discriminate H.
    - intros o o' H. discriminate H.
    - intros v rest o IH o' H. exact (IH o' H).
    - intros v rest o IH o' H. exact (IH o' H).
    - intros rest o IH o' H. exact (IH o' H).
    - intros a rest o Ha IH o' H. rewrite parse_other in H by exact Ha.
      rewrite parse_other by exact Ha. exact (IH o' H). }
  split; [exact Hoff|]. split; [exact Hoff|].
  intros Hc.
  assert (Ho : set_nocheck o = o) by (destruct o; cbn in Hc; subst; reflexivity).
  rewrite Ho, H in Hoff. injection Hoff as Hoff. rewrite Hoff. reflexivity.
Qed.

End Atoi.

Lemma other_arguments_ignored_witness :
  parse_args decimal ["butterfly"; "-n"; "12"; "--nocheck"] = Some (Options 1000 1000 true).
Proof.
  apply (other_arguments_ignored decimal "butterfly" ["-n"; "12"; "--nocheck"]).
  intros a [<-|[<-|[<-|[]]]]; reflexivity.
Defined.

Lemma absent_option_keeps_setting_witness :
  M (Options 20 1000 false) = M defaults.
Proof.
  apply (absent_option_keeps_setting decimal ["-N"; "20"; "-nocheck"] defaults
           (Options 20 1000 false)).
  - reflexivity.
  - intros [H|[H|[H|[]]]]; discriminate H.
Defined.

Lemma option_without_value_witness :
  parse decimal (["-M"; "50"] ++ ["-N"]) defaults = None.
Proof.
  apply (option_without_value decimal ["-M"; "50"] defaults (Options 1000 50 true)).
  reflexivity.
Defined.

Lemma nocheck_stays_witness :
  parse decimal ["-nocheck"; "-N"; "-nocheck"; "-M"; "7"] defaults
  = Some (set_nocheck (Options 0 7 true)).
Proof.
  apply (nocheck_stays decimal ["-N"; "-nocheck"; "-M"; "7"] defaults (Options 0 7 true)).
  reflexivity.
Defined.

End CommandLineFacts.

(** * The three figures *)

Module FiguresFacts.
Import ErrorAnalysis ErrorSpec FloatOrder FloatOrderFacts ErrorAnalysisFacts
       ErrorAnalysisMore.
Local Open Scope float_scope.

(** The size of a vector as a [double] is the integer rounded to nearest,
    as long as the size is below 2^63. *)
Lemma of_size_count (n : nat) :
  (Z.of_nat n < 2 ^ 63)%Z -> of_size n = count n.
Proof.
  intros Hn. unfold of_size, count.
  rewrite <- (FloatAxioms.SF2Prim_Prim2SF (of_uint63 _)).
  rewrite FloatAxioms.of_uint63_spec, Uint63.of_Z_spec.
  change Uint63Axioms.wB with (2 ^ 63)%Z.
  rewrite Z.mod_small by lia. reflexivity.
Qed.

(** The running maximum is where it started or one of the numbers met. *)
Lemma std_max_fold_in (xs : list float) :
  forall m, fold_left std_max xs m = m \/ In (fold_left std_max xs m) xs.
Proof.
  induction xs as [|x xs IH]; intros m; [left; reflexivity|].
  cbn [fold_left]. destruct (IH (std_max m x)) as [H|H].
  - rewrite H. unfold std_max. destruct (m <? x); [right; left|left]; reflexivity.
  - right. right. exact H.
Qed.

(** C8, as amended.  For [result] and [exact] of one length [M], the
    aggregate figure is the square root of the sum over the targets of the
    squared norm of [exact_k - result_k] over the sum of the squared norm
    of [exact_k]; the average figure is the sum of the per-target ratios,
    the norm of [exact_k - result_k] over the norm of [exact_k], divided by
    [M]; and the maximum figure is the greatest of 0 and the per-target
    ratios that are not NaN.  It is the maximum of the per-target ratios
    as soon as there is a target and every ratio is a number that is not
    negative. *)
Theorem figures_written_out (norm_2 norm_2_sq : complex float -> float)
    (result exact : list result_type) :
  length exact = length result ->
  (Z.of_nat (length result) < 2 ^ 63)%Z ->
  let rep := analyse norm_2 norm_2_sq result exact in
  tot_rel_err rep = spec_aggregate norm_2_sq result exact /\
  ave_rel_err rep = spec_average norm_2 result exact /\
  greatest_with_zero (max_rel_err rep) (spec_ratios norm_2 result exact) /\
  (result <> [] ->
   Forall (fun q => (0 <=? q) = true) (spec_ratios norm_2 result exact) ->
   is_maximum (max_rel_err rep) (spec_ratios norm_2 result exact)).
Proof.
  intros Hlen Hsize rep. unfold rep, analyse.
  rewrite (sum_errors_spec norm_2 norm_2_sq result exact Hlen).
  cbn [tot_rel_err ave_rel_err max_rel_err tot_error_sq tot_norm_sq
       tot_ind_rel_err max_ind_rel_err].
  change (ratios norm_2 result exact) with (spec_ratios norm_2 result exact).
  split; [reflexivity|]. split.
  { unfold spec_average. rewrite (of_size_count _ Hsize). reflexivity. }
  destruct (std_max_fold_any (spec_ratios norm_2 result exact) 0 zero_number)
    as (Hpos & Hall).
  split.
  - split; [exact Hpos|]. split; [apply std_max_fold_in|].
    intros x Hx Hnan. rewrite List.Forall_forall in Hall.
    destruct (Hall x Hx) as [H|H]; [congruence | exact H].
  - intros Hne Hnn. apply std_max_is_maximum; [|exact Hnn].
    apply (ratios_nonempty norm_2 result exact); assumption.
Qed.

(** On two targets: the aggregate figure is 0.94686415294799864, the
    average 0.75 and the maximum 1. *)
Lemma figures_written_out_witness :
  let result := [Complex 1 0; Complex 0 0] in
  let exact := [Complex 2 0; Complex 3 4] in
  analyse modulus modulus_sq result exact
    = Report 0x1.e4cb60d55531ep-1 0.75 1 /\
  spec_ratios modulus result exact = [0.5; 1] /\
  is_maximum 1 (spec_ratios modulus result exact).
Proof.
  intros result exact.
  destruct (figures_written_out modulus modulus_sq result exact)
    as (H1 & H2 & _ & H4).
  - reflexivity.
  - vm_compute. reflexivity.
  - split; [|split].
    + vm_compute. reflexivity.
    + vm_compute. reflexivity.
    + apply H4.
      * discriminate.
      * vm_compute. repeat constructor.
Defined.

(** C8, as the claim has it, fails on one target with [exact] and [result]
    both zero: the only ratio is NaN, and the maximum figure, 0, is not
    the maximum of the ratios. *)
Lemma maximum_with_nan_ratio :
  ~ figures_claimed modulus modulus_sq [Complex 0 0] [Complex 0 0].
Proof.
  intros (_ & _ & (x & Hin & Heq) & _).
  vm_compute in Hin. destruct Hin as [<-|[]].
  vm_compute in Heq. discriminate Heq.
Qed.

End FiguresFacts.

(** * Facts about the kernel *)

Module KernelFacts.
Import Kernel.
Local Open Scope float_scope.

(** The product of two binary64 numbers does not depend on their order. *)
Lemma mul_comm (x y : float) : x * y = y * x.
Proof.
  rewrite <- (FloatAxioms.SF2Prim_Prim2SF (x * y)),
          <- (FloatAxioms.SF2Prim_Prim2SF (y * x)).
  f_equal. rewrite !FloatAxioms.mul_spec.
  unfold FloatAxioms.SF64mul, SFmul.
  destruct (Prim2SF x) as [sx|sx| |sx mx ex], (Prim2SF y) as [sy|sy| |sy my ey];
    try reflexivity; rewrite (xorb_comm sx sy); try reflexivity.
  rewrite (Pos.mul_comm mx my), (Z.add_comm ex ey). reflexivity.
Qed.

(** X18.  In binary64, whatever [cos_pi] and [sin_pi] compute, the kernel
    does not tell the target from the source: the value and the phase of a
    pair of points are those of the pair taken the other way round. *)
Theorem kernel_symmetric (cos_pi sin_pi : float -> float)
    (t : target_type) (s : source_type) :
  value cos_pi sin_pi t s = value cos_pi sin_pi s t /\
  phase t s = phase s t.
Proof.
  unfold value, phase, inner_prod.
  rewrite (mul_comm (coord t) (coord s)). split; reflexivity.
Qed.

End KernelFacts.
